(** * go-morss: the selection-and-enrichment pipeline of [morss.go]

    A shallow embedding of [morss.go] (package [main]) and the properties of
    its request handler.  The libraries the program calls ([net/url],
    [strconv], [time], [math/rand], [gofeed], [go-readability],
    [gorilla/feeds], [encoding/json]) are not part of the program: what they
    return is collected in a record [World], and every function of the
    program that calls them takes the world as its first argument.  Logging
    is left out: the logger is written to and never read. *)

From Stdlib Require Import ZArith String Ascii List Sorted Lia.
From stdpp Require Import base option list relations gmap strings.

Local Open Scope string_scope.
Local Open Scope Z_scope.

(** ** Go values *)

(** [time.Time], as an instant in nanoseconds; [time.Duration] likewise. *)
Definition Time := Z.
Definition Duration := Z.

Module time.
Definition Nanosecond : Duration := 1.
Definition Second : Duration := 1000000000.
Definition Hour : Duration := 3600 * Second.
(** [t.Before(u)]: the instant [t] is strictly before [u]. *)
Definition Before (t u : Time) : bool := t <? u.
(** [t.Add(d)]. *)
Definition Add (t : Time) (d : Duration) : Time := t + d.
End time.

(** A Go [(value, error)] result whose value is unused on error. *)
Inductive result (A : Type) : Type :=
| Ok (a : A)
| Err (e : string).
Arguments Ok {A} a.
Arguments Err {A} e.

(** The double quote, which string literals here do not contain. *)
Definition dq : string := String (ascii_of_nat 34) EmptyString.

(** ** Constants of [morss.go] *)

Definition defaultItemsCap : Z := 10.
Definition defaultFromDaysAgo : Duration := (30 * 24) * time.Hour.
Definition defaultHTTPTimeout : Duration := 30 * time.Second.
Definition fromTimeParamName : string := "from_time".
Definition itemsCapParamName : string := "items_cap".

Definition badgePage : string :=
"
<div style=" +:+ dq +:+ "font-family:sans-serif" +:+ dq +:+ ">

<p><a href=" +:+ dq +:+ "https://github.com/traut/go-morss" +:+ dq +:+ "><code>go-morss</code></a> adds full content to the items in RSS / Atom / JSON feeds.</p>
<p>
	To use <code>go-morss</code> API, add a feed URL without a schema to the root endpoint:
	<pre>&lt;go-morss-domain&gt;/&lt;feed-url-without-schema&gt;</pre>
	For example, <a href=" +:+ dq +:+ "/news.ycombinator.com/rss" +:+ dq +:+ "><code>&lt;this-domain&gt;/news.ycombinator.com/rss</code></a>.
	You can use this new URL in a feed reader or download the feed with a HTTP GET request.
</p>
<p>
Note:
	<ul>
	<li>the schema <code>https://</code> is assumed for a feed URL</li>
	<li>the new feed is returned in the format of the original feed (RSS / Atom / JSON)
	<li>there is no cache support at the moment</li>
	</ul>
</p>
</div>
".

Definition userAgents : list string := [
  "Mozilla/5.0 (Windows NT 10.0; Win64; x64) AppleWebKit/537.36 (KHTML, like Gecko) Chrome/131.0.0.0 Safari/537.36";
  "Mozilla/5.0 (Macintosh; Intel Mac OS X 10_15_7) AppleWebKit/537.36 (KHTML, like Gecko) Chrome/131.0.0.0 Safari/537.36";
  "Mozilla/5.0 (Windows NT 10.0; Win64; x64; rv:133.0) Gecko/20100101 Firefox/133.0";
  "Mozilla/5.0 (Windows NT 10.0; Win64; x64) AppleWebKit/537.36 (KHTML, like Gecko) Chrome/131.0.0.0 Safari/537.36 Edg/131.0.0.0";
  "Mozilla/5.0 (X11; Linux x86_64) AppleWebKit/537.36 (KHTML, like Gecko) Chrome/131.0.0.0 Safari/537.36";
  "Mozilla/5.0 (X11; Linux x86_64; rv:133.0) Gecko/20100101 Firefox/133.0";
  "Mozilla/5.0 (Macintosh; Intel Mac OS X 10.15; rv:133.0) Gecko/20100101 Firefox/133.0";
  "Mozilla/5.0 (Macintosh; Intel Mac OS X 10_15_7) AppleWebKit/605.1.15 (KHTML, like Gecko) Version/18.1.1 Safari/605.1.15";
  "Mozilla/5.0 (X11; Linux x86_64; rv:128.0) Gecko/20100101 Firefox/128.0";
  "Mozilla/5.0 (X11; Ubuntu; Linux x86_64; rv:133.0) Gecko/20100101 Firefox/133.0"
].

(** ** The parsed feed ([gofeed.Feed], [gofeed.Item]) *)

Module gofeed.

Record Person := mkPerson { Name : string; Email : string }.

Module Item.
Record t := mk {
  GUID : string;
  Title : string;
  Link : string;
  Description : string;
  Content : string;
  UpdatedParsed : option Time;
  PublishedParsed : option Time;
  Authors : list Person
}.
(** The assignment [item.Content = c]. *)
Definition setContent (c : string) (item : t) : t :=
  mk (GUID item) (Title item) (Link item) (Description item) c
     (UpdatedParsed item) (PublishedParsed item) (Authors item).
End Item.

Module Feed.
Record t := mk {
  Title : string;
  Link : string;
  Description : string;
  UpdatedParsed : option Time;
  PublishedParsed : option Time;
  Authors : list Person;
  Items : list Item.t;
  FeedType : string
}.
Definition setItems (items : list Item.t) (feed : t) : t :=
  mk (Title feed) (Link feed) (Description feed) (UpdatedParsed feed)
     (PublishedParsed feed) (Authors feed) items (FeedType feed).
End Feed.

End gofeed.

(** ** The feed handed to the serializers ([feeds.Feed], [feeds.Item]) *)

Module feeds.

Record Link := mkLink { Href : string }.
Record Author := mkAuthor { Name : string; Email : string }.

Module Item.
Record t := mk {
  Id : string;
  Title : string;
  Link : feeds.Link;
  Description : string;
  Content : string;
  Updated : option Time;   (* [None]: the zero [time.Time] *)
  Created : option Time;
  Author : option feeds.Author   (* [None]: the nil pointer *)
}.
End Item.

Module Feed.
Record t := mk {
  Title : string;
  Link : feeds.Link;
  Description : string;
  Updated : option Time;
  Created : option Time;
  Author : option feeds.Author;
  Items : list Item.t
}.
End Feed.

End feeds.

(** [readability.Article], of which the program reads [Content] only. *)
Module readability.
Record Article := mkArticle { Content : string }.
End readability.

(** [url.URL], of which the program reads [Scheme] and [Host]. *)
Module url.
Record URL := mkURL { Scheme : string; Host : string }.
End url.

(** ** The world outside the program

    One field per library call of [morss.go].  [strconv.Atoi] returns both
    a value and an error ([None]: nil), as in Go, since the program keeps
    the value when the error is set.  [rand_Int63] is the draw that
    [rand.Intn] reduces to its range.  [json_Marshal] gives the encoding
    of a string that [Encode] writes, or [Err] when that write fails. *)

Record World := mkWorld {
  url_Parse : string -> result url.URL;
  time_Now : Time;
  time_Parse : string -> string -> result Time;
  strconv_Atoi : string -> Z * option string;
  rand_Int63 : Z;
  gofeed_ParseURL : string -> string -> result gofeed.Feed.t;
  readability_FromURL : string -> Duration -> result readability.Article;
  feeds_ToRss : feeds.Feed.t -> result string;
  feeds_ToAtom : feeds.Feed.t -> result string;
  feeds_ToJSON : feeds.Feed.t -> result string;
  json_Marshal : string -> result string
}.

(** The network requests the program makes, with what it passes to the
    library that performs them: the feed download gets the URL and the
    [UserAgent] set on the parser; the page download of an item gets the
    link and the timeout, and no client identity. *)
Inductive Event :=
| FeedFetch (feedURL : string) (userAgent : string)
| ItemFetch (link : string) (timeout : Duration).

(** The client identity the program chose for a request, if it chose one. *)
Definition chosenUserAgent (ev : Event) : option string :=
  match ev with
  | FeedFetch _ ua => Some ua
  | ItemFetch _ _ => None
  end.

Definition isItemFetch (ev : Event) : bool :=
  match ev with ItemFetch _ _ => true | FeedFetch _ _ => false end.

Definition isFeedFetch (ev : Event) : bool :=
  match ev with FeedFetch _ _ => true | ItemFetch _ _ => false end.

(** ** [http.ResponseWriter]

    [Header] is the header map the handler edits; [WriteHeader] sends the
    status line with the headers as they are at that moment ([sent]), and
    only the first call counts; [Write] sends the header with status 200
    first when none was sent.  A handler that returns without writing
    leaves [status = None]: the server then answers 200 with an empty
    body. *)

Module http.

Definition StatusOK : Z := 200.
Definition StatusBadRequest : Z := 400.
Definition StatusNotFound : Z := 404.
Definition StatusInternalServerError : Z := 500.

Record ResponseWriter := mkResponseWriter {
  Header : gmap string (list string);
  status : option Z;
  sent : gmap string (list string);
  body : string
}.

Definition newResponseWriter : ResponseWriter :=
  mkResponseWriter ∅ None ∅ "".

(** [w.Header().Set(key, value)] *)
Definition Header_Set (key value : string) (w : ResponseWriter) : ResponseWriter :=
  mkResponseWriter (<[key := [value]]> (Header w)) (status w) (sent w) (body w).

(** [w.Header().Del(key)] *)
Definition Header_Del (key : string) (w : ResponseWriter) : ResponseWriter :=
  mkResponseWriter (delete key (Header w)) (status w) (sent w) (body w).

Definition WriteHeader (code : Z) (w : ResponseWriter) : ResponseWriter :=
  match status w with
  | Some _ => w
  | None => mkResponseWriter (Header w) (Some code) (Header w) (body w)
  end.

Definition Write (data : string) (w : ResponseWriter) : ResponseWriter :=
  let w := WriteHeader StatusOK w in
  mkResponseWriter (Header w) (status w) (sent w) (body w +:+ data).

(** [http.Error(w, error, code)] *)
Definition Error (w : ResponseWriter) (error : string) (code : Z) : ResponseWriter :=
  let w := Header_Del "Content-Length" w in
  let w := Header_Set "Content-Type" "text/plain; charset=utf-8" w in
  let w := Header_Set "X-Content-Type-Options" "nosniff" w in
  let w := WriteHeader code w in
  Write (error +:+ String (ascii_of_nat 10) EmptyString) w.

(** What the client receives once the handler has returned. *)
Definition finish (w : ResponseWriter) : ResponseWriter := WriteHeader StatusOK w.

Definition statusCode (w : ResponseWriter) : Z := default StatusOK (status w).

(** The [Content-Type] the client receives. *)
Definition contentType (w : ResponseWriter) : list string :=
  default [] (sent (finish w) !! "Content-Type").

End http.

Module fmt.
Definition newline : string := String (ascii_of_nat 10) EmptyString.
(** [fmt.Fprint(w, s)] and [fmt.Fprintln(w, s)] for one string operand. *)
Definition Fprint (w : http.ResponseWriter) (s : string) : http.ResponseWriter :=
  http.Write s w.
Definition Fprintln (w : http.ResponseWriter) (s : string) : http.ResponseWriter :=
  http.Write (s +:+ newline) w.
End fmt.

(** [json.NewEncoder(w).Encode(v)] for a string [v]: the encoding followed
    by a newline is written to [w].  The encoding of a string does not
    fail; what can fail is the write, and [Write] has sent the header with
    status 200 by then.  (What a failed write delivers of the body is not
    modelled.) *)
Module json.
Definition Encode (W : World) (w : http.ResponseWriter) (v : string)
  : http.ResponseWriter * option string :=
  match json_Marshal W v with
  | Ok encoded => (http.Write (encoded +:+ fmt.newline) w, None)
  | Err e => (http.WriteHeader http.StatusOK w, Some e)
  end.
End json.

(** ** The program *)

(** Produce a new slice by applying function [fn] to items of the slice
    [s].  (A nil slice and an empty one are both the empty list.) *)
Definition FnMap {I O : Type} (s : list I) (fn : I -> O) : list O :=
  match s with
  | [] => []
  | _ => List.map fn s
  end.

Definition isValidUrl (W : World) (value : string) : bool :=
  match url_Parse W value with
  | Ok u => negb (String.eqb (url.Scheme u) "") && negb (String.eqb (url.Host u) "")
  | Err _ => false
  end.

(** [rand.Intn(n)] for [n > 0]: a value in [0, n). *)
Definition rand_Intn (W : World) (n : Z) : Z := rand_Int63 W mod n.

Definition getRandUserAgent (W : World) : string :=
  nth (Z.to_nat (rand_Intn W (Z.of_nat (length userAgents)))) userAgents "".

(** [fetchFeed]: the parser is given the user agent, then the URL. *)
Definition fetchFeed (W : World) (url : string)
  : result gofeed.Feed.t * list Event :=
  let userAgent := getRandUserAgent W in
  (gofeed_ParseURL W userAgent url, [FeedFetch url userAgent]).

(** *** [fetchFeedItems]: the loop *)

(** [itemTime], as the loop body computes it: [UpdatedParsed] when it is
    not nil, else [PublishedParsed] when it is not nil, else nil. *)
Definition itemTime (item : gofeed.Item.t) : option Time :=
  match gofeed.Item.UpdatedParsed item with
  | Some t => Some t
  | None =>
      match gofeed.Item.PublishedParsed item with
      | Some t => Some t
      | None => None
      end
  end.

(** How one iteration that got past the cap test ends: one of the three
    [continue]s, or the launch of a goroutine. *)
Inductive Verdict := HasContent | NoTime | OutsideWindow | Launch.

Definition examine (from : Time) (item : gofeed.Item.t) : Verdict :=
  if negb (String.eqb (gofeed.Item.Content item) "") then HasContent
  else
    match itemTime item with
    | None => NoTime
    | Some t => if time.Before t from then OutsideWindow else Launch
    end.

(** What the loop leaves behind: the goroutines it launched, each with the
    index and the item it was given, in launch order; the final [count];
    and the index at which it stopped, that is the number of items it
    examined. *)
Record Scan := mkScan {
  launched : list (nat * gofeed.Item.t);
  finalCount : Z;
  scanned : nat
}.

(** The loop [for i := range feed.Items], from index [i] with [count] items
    accepted so far; [items] are the items from index [i] on.  [count] never
    exceeds the number of items, so the Go [int] does not wrap. *)
Fixpoint scanLoop (from : Time) (itemsCap : Z) (items : list gofeed.Item.t)
    (i : nat) (count : Z) : Scan :=
  match items with
  | [] => mkScan [] count i
  | item :: rest =>
      if count >=? itemsCap then mkScan [] count i
      else
        match examine from item with
        | Launch =>
            let s := scanLoop from itemsCap rest (S i) (count + 1) in
            mkScan ((i, item) :: launched s) (finalCount s) (scanned s)
        | _ => scanLoop from itemsCap rest (S i) count
        end
  end.

(** *** [fetchFeedItems]: the goroutine *)

(** The body of [go func(item *gofeed.Item)], as its effect on the item. *)
Definition enrich (W : World) (item : gofeed.Item.t) : gofeed.Item.t :=
  match readability_FromURL W (gofeed.Item.Link item) defaultHTTPTimeout with
  | Err _ => item
  | Ok article => gofeed.Item.setContent (readability.Content article) item
  end.

(** The items once the goroutines [gs] have run to their end: each writes
    to the item at its own index.  (The parser allocates one item per
    entry, so two indices never share an item.) *)
Definition joined (W : World) (items : list gofeed.Item.t)
    (gs : list (nat * gofeed.Item.t)) : list gofeed.Item.t :=
  foldl (fun its g => alter (enrich W) (fst g) its) items gs.

Definition itemFetches (gs : list (nat * gofeed.Item.t)) : list Event :=
  List.map (fun g => ItemFetch (gofeed.Item.Link (snd g)) defaultHTTPTimeout) gs.

(** [fetchFeedItems], as seen by its caller: the feed after [wg.Wait()],
    and the page downloads made (listed in launch order). *)
Definition fetchFeedItems (W : World) (feed : gofeed.Feed.t) (from : Time)
    (itemsCap : Z) : gofeed.Feed.t * list Event :=
  let s := scanLoop from itemsCap (gofeed.Feed.Items feed) 0 0 in
  (gofeed.Feed.setItems (joined W (gofeed.Feed.Items feed) (launched s)) feed,
   itemFetches (launched s)).

(** *** [processRequest] *)

(** [http.Request], of which the handler reads the path and the query. *)
Record Request := mkRequest {
  Path : string;
  Query : gmap string (list string)
}.

(** [query[name]]: the values of a parameter, nil when it is absent. *)
Definition queryValues (req : Request) (name : string) : list string :=
  default [] (Query req !! name).

Module strings.
Definition TrimPrefix (s prefix : string) : string :=
  if String.prefix prefix s
  then String.substring (String.length prefix)
         (String.length s - String.length prefix) s
  else s.
End strings.

Definition parseTimeParam (W : World) (value : string) : result Time :=
  time_Parse W "2006-01-02T15:04:05Z" value.

(** [fmt.Sprintf("Can't parse `%s` query param value", name)] *)
Definition cantParse (name : string) : string :=
  "Can't parse `" +:+ name +:+ "` query param value".

Definition firstAuthor (authors : list gofeed.Person) : option feeds.Author :=
  match authors with
  | a :: _ => Some (feeds.mkAuthor (gofeed.Name a) (gofeed.Email a))
  | [] => None
  end.

(** The function passed to [FnMap]. *)
Definition newItem (item : gofeed.Item.t) : feeds.Item.t :=
  feeds.Item.mk
    (gofeed.Item.GUID item)
    (gofeed.Item.Title item)
    (feeds.mkLink (gofeed.Item.Link item))
    (gofeed.Item.Description item)
    (gofeed.Item.Content item)
    (gofeed.Item.UpdatedParsed item)
    (gofeed.Item.PublishedParsed item)
    (firstAuthor (gofeed.Item.Authors item)).

(** [feedNew], as it stands when the handler reaches the [switch]. *)
Definition newFeed (feed : gofeed.Feed.t) : feeds.Feed.t :=
  feeds.Feed.mk
    (gofeed.Feed.Title feed +:+ " (repacked by go-morss)")
    (feeds.mkLink (gofeed.Feed.Link feed))
    (gofeed.Feed.Description feed)
    (gofeed.Feed.UpdatedParsed feed)
    (gofeed.Feed.PublishedParsed feed)
    (firstAuthor (gofeed.Feed.Authors feed))
    (FnMap (gofeed.Feed.Items feed) newItem).

(** The [switch feed.FeedType] that ends the handler. *)
Definition respond (W : World) (w : http.ResponseWriter)
    (feedNew : feeds.Feed.t) (feedType : string) : http.ResponseWriter :=
  if String.eqb feedType "rss" then
    match feeds_ToRss W feedNew with
    | Err _ => http.Error w "Server error" http.StatusInternalServerError
    | Ok rssBody =>
        fmt.Fprintln (http.Header_Set "Content-Type" "application/xml" w) rssBody
    end
  else if String.eqb feedType "atom" then
    match feeds_ToAtom W feedNew with
    | Err _ => http.Error w "Server error" http.StatusInternalServerError
    | Ok atomBody =>
        fmt.Fprintln (http.Header_Set "Content-Type" "application/xml" w) atomBody
    end
  else if String.eqb feedType "json" then
    match feeds_ToJSON W feedNew with
    | Err _ => http.Error w "Server error" http.StatusInternalServerError
    | Ok jsonBody =>
        let w := http.Header_Set "Content-Type" "application/json" w in
        match json.Encode W w jsonBody with
        | (w, Some _) => http.Error w "Server error" http.StatusInternalServerError
        | (w, None) => w
        end
    end
  else w.

(** The lower limit of the time frame: [Err] when [from_time] does not
    parse, on which the handler answers 400 and returns. *)
Definition readFromTime (W : World) (req : Request) : result Time :=
  match queryValues req fromTimeParamName with
  | value :: _ => parseTimeParam W value
  | [] => Ok (time.Add (time_Now W) (- defaultFromDaysAgo))
  end.

(** The items cap: on a value that [strconv.Atoi] rejects the handler
    answers 400 and goes on, with the value [strconv.Atoi] returned. *)
Definition readItemsCap (W : World) (w : http.ResponseWriter) (req : Request)
    (itemsCapByServer : Z) : Z * http.ResponseWriter :=
  match queryValues req itemsCapParamName with
  | value :: _ =>
      match strconv_Atoi W value with
      | (itemsCap, Some _) =>
          (itemsCap, http.Error w (cantParse fromTimeParamName) http.StatusBadRequest)
      | (itemsCap, None) => (itemsCap, w)
      end
  | [] => (itemsCapByServer, w)
  end.

Definition processRequest (W : World) (w : http.ResponseWriter) (req : Request)
    (itemsCapByServer : Z) : http.ResponseWriter * list Event :=
  let feedURL := strings.TrimPrefix (Path req) "/" in
  if String.eqb feedURL "" then
    (fmt.Fprint (http.Header_Set "Content-Type" "text/html; charset=utf-8" w) badgePage, [])
  else if String.eqb feedURL "favicon.ico" then
    (http.Error w "Not found" http.StatusNotFound, [])
  else
    let feedURL := "https://" +:+ feedURL in
    if negb (isValidUrl W feedURL) then
      (http.Error w "No valid RSS URL found in the path" http.StatusBadRequest, [])
    else
      match readFromTime W req with
      | Err _ => (http.Error w (cantParse fromTimeParamName) http.StatusBadRequest, [])
      | Ok fromTime =>
          let '(itemsCap, w) := readItemsCap W w req itemsCapByServer in
          match fetchFeed W feedURL with
          | (Err _, evs) => (w, evs)
          | (Ok feed, evs) =>
              let '(feed, evs') := fetchFeedItems W feed fromTime itemsCap in
              let feedNew := newFeed feed in
              (respond W w feedNew (gofeed.Feed.FeedType feed), (evs ++ evs')%list)
          end
      end.


(** ** The selection policy, in the words of the specification

    An item is eligible when its content is empty and it has a timestamp
    (updated, else published) that is not before [from]; the selector
    takes the first [cap] eligible items, in source order. *)

Definition eligible (from : Time) (item : gofeed.Item.t) : bool :=
  String.eqb (gofeed.Item.Content item) "" &&
  match itemTime item with
  | Some t => from <=? t
  | None => false
  end.

(** The items with their indices, counted from [i]. *)
Fixpoint enumFrom (i : nat) (items : list gofeed.Item.t)
  : list (nat * gofeed.Item.t) :=
  match items with
  | [] => []
  | item :: rest => (i, item) :: enumFrom (S i) rest
  end.

Definition selectSpec (from : Time) (cap : Z) (items : list gofeed.Item.t)
  : list (nat * gofeed.Item.t) :=
  take (Z.to_nat cap) (List.filter (fun g => eligible from (snd g)) (enumFrom 0 items)).

(** ** [fetchFeedItems] as it runs: the loop and its goroutines interleaved

    The machine below holds what [fetchFeedItems] shares between the loop
    and the goroutines it launches: the items, the [sync.WaitGroup] counter
    and the goroutines themselves.  A goroutine stays in [units] after it
    has ended, as [Finished]. *)

(** Where the function stands: at the head of the loop, about to test
    index [i]; blocked in [wg.Wait()]; or returned to its caller. *)
Inductive MainPc :=
| Looping (i : nat) (count : Z)
| Waiting
| Returned.

(** Where a goroutine stands: before [readability.FromURL] has returned;
    before the assignment of the content it obtained; before the deferred
    [wg.Done()]; ended. *)
Inductive UnitPc :=
| Fetching
| Storing (content : string)
| Exiting
| Finished.

Record Machine := mkMachine {
  store : list gofeed.Item.t;
  mainPc : MainPc;
  wg : Z;
  units : list (nat * UnitPc)
}.

Definition start (items : list gofeed.Item.t) : Machine :=
  mkMachine items (Looping 0 0) 0 [].

(** A goroutine that has not yet called [wg.Done()]. *)
Definition active (u : nat * UnitPc) : bool :=
  match snd u with Finished => false | _ => true end.

(** A goroutine that is past its assignment, or past the error return. *)
Definition settled (pc : UnitPc) : bool :=
  match pc with Exiting | Finished => true | _ => false end.

Inductive step (W : World) (from : Time) (itemsCap : Z) : Machine -> Machine -> Prop :=
(* the [range] is exhausted *)
| step_end m i count :
    mainPc m = Looping i count ->
    (length (store m) <= i)%nat ->
    step W from itemsCap m (mkMachine (store m) Waiting (wg m) (units m))
(* [if count >= itemsCap { break }] *)
| step_break m i count :
    mainPc m = Looping i count ->
    (i < length (store m))%nat ->
    itemsCap <= count ->
    step W from itemsCap m (mkMachine (store m) Waiting (wg m) (units m))
(* one of the three [continue]s *)
| step_continue m i count item :
    mainPc m = Looping i count ->
    store m !! i = Some item ->
    count < itemsCap ->
    examine from item <> Launch ->
    step W from itemsCap m (mkMachine (store m) (Looping (S i) count) (wg m) (units m))
(* [wg.Add(1); count += 1; go func(item) {...}(item)] *)
| step_go m i count item :
    mainPc m = Looping i count ->
    store m !! i = Some item ->
    count < itemsCap ->
    examine from item = Launch ->
    step W from itemsCap m
      (mkMachine (store m) (Looping (S i) (count + 1)) (wg m + 1)
                 (units m ++ [(i, Fetching)]))
(* [wg.Wait()] returns when the counter is zero *)
| step_wait m :
    mainPc m = Waiting ->
    wg m = 0 ->
    step W from itemsCap m (mkMachine (store m) Returned (wg m) (units m))
(* [readability.FromURL] returns an article *)
| step_fetch_ok m k i item article :
    units m !! k = Some (i, Fetching) ->
    store m !! i = Some item ->
    readability_FromURL W (gofeed.Item.Link item) defaultHTTPTimeout = Ok article ->
    step W from itemsCap m
      (mkMachine (store m) (mainPc m) (wg m)
                 (<[k := (i, Storing (readability.Content article))]> (units m)))
(* [readability.FromURL] returns an error: the goroutine returns *)
| step_fetch_err m k i item e :
    units m !! k = Some (i, Fetching) ->
    store m !! i = Some item ->
    readability_FromURL W (gofeed.Item.Link item) defaultHTTPTimeout = Err e ->
    step W from itemsCap m
      (mkMachine (store m) (mainPc m) (wg m) (<[k := (i, Exiting)]> (units m)))
(* [item.Content = article.Content] *)
| step_store m k i item content :
    units m !! k = Some (i, Storing content) ->
    store m !! i = Some item ->
    step W from itemsCap m
      (mkMachine (<[i := gofeed.Item.setContent content item]> (store m))
                 (mainPc m) (wg m) (<[k := (i, Exiting)]> (units m)))
(* the deferred [wg.Done()] *)
| step_done m k i :
    units m !! k = Some (i, Exiting) ->
    step W from itemsCap m
      (mkMachine (store m) (mainPc m) (wg m - 1) (<[k := (i, Finished)]> (units m))).

(** The states [fetchFeedItems] can be in when called on [items]. *)
Definition reachable (W : World) (from : Time) (itemsCap : Z)
    (items : list gofeed.Item.t) (m : Machine) : Prop :=
  rtc (step W from itemsCap) (start items) m.

(** What is left to do, as a number that every step decreases. *)
Definition unitFuel (u : nat * UnitPc) : nat :=
  match snd u with
  | Fetching => 3
  | Storing _ => 2
  | Exiting => 1
  | Finished => 0
  end.

Definition mainFuel (m : Machine) : nat :=
  match mainPc m with
  | Looping i _ => 4 * (length (store m) - i) + 2
  | Waiting => 1
  | Returned => 0
  end.

Definition fuel (m : Machine) : nat :=
  (mainFuel m + sum_list_with unitFuel (units m))%nat.

(** A goroutine about to assign holds the content that the download of its
    item's link returned. *)
Definition unitOk (W : World) (item : gofeed.Item.t) (pc : UnitPc) : Prop :=
  match pc with
  | Storing content =>
      exists article,
        readability_FromURL W (gofeed.Item.Link item) defaultHTTPTimeout = Ok article /\
        content = readability.Content article
  | _ => True
  end.

(** What holds of every state [fetchFeedItems] can be in, when called on
    [orig]: the goroutines are those the loop has launched so far, one per
    index; the counter of the wait group is the number of goroutines that
    have not called [wg.Done()]; an item is as the caller passed it until
    its goroutine has assigned to it. *)
Record Inv (W : World) (from : Time) (itemsCap : Z)
    (orig : list gofeed.Item.t) (m : Machine) : Prop := mkInv {
  inv_nodup : NoDup (units m).*1;
  inv_wg : wg m = Z.of_nat (length (List.filter active (units m)));
  inv_unit : forall k i pc, units m !! k = Some (i, pc) ->
    exists item, orig !! i = Some item /\
      store m !! i = Some (if settled pc then enrich W item else item) /\
      unitOk W item pc;
  inv_rest : forall j, j ∉ (units m).*1 -> store m !! j = orig !! j;
  inv_main :
    match mainPc m with
    | Looping i count =>
        (forall j, j ∈ (units m).*1 -> (j < i)%nat) /\
        (launched (scanLoop from itemsCap orig 0 0)).*1 =
          ((units m).*1 ++ (launched (scanLoop from itemsCap (drop i orig) i count)).*1)%list
    | Waiting => (units m).*1 = (launched (scanLoop from itemsCap orig 0 0)).*1
    | Returned =>
        (units m).*1 = (launched (scanLoop from itemsCap orig 0 0)).*1 /\ wg m = 0
    end
}.

(** The feed the handler hands to the serializers, for a feed as the
    parser returned it. *)
Definition assembled (W : World) (feed : gofeed.Feed.t) (from : Time)
    (itemsCap : Z) : feeds.Feed.t :=
  newFeed (fst (fetchFeedItems W feed from itemsCap)).

(** The URL the handler downloads for a request. *)
Definition feedURLOf (req : Request) : string :=
  "https://" +:+ strings.TrimPrefix (Path req) "/".

(** ** A world and a feed to run the program on *)

Module Example.

(** Decimal digits, as [strconv.Atoi] reads a string of fewer than 19
    bytes: an optional sign, then digits only. *)
Fixpoint digits (s : string) (n : Z) : option Z :=
  match s with
  | EmptyString => Some n
  | String ch rest =>
      let d := Z.of_nat (nat_of_ascii ch) - 48 in
      if (0 <=? d) && (d <=? 9) then digits rest (n * 10 + d) else None
  end.

Definition Atoi (s : string) : Z * option string :=
  match s with
  | EmptyString => (0, Some "invalid syntax")
  | String ch rest =>
      let minus := Ascii.eqb ch "-"%char in
      let body := if minus || Ascii.eqb ch "+"%char then rest else s in
      match body, digits body 0 with
      | String _ _, Some n => (if minus then - n else n, None)
      | _, _ => (0, Some "invalid syntax")
      end
  end.

(** The host of [https://host/path]: what precedes the first slash. *)
Fixpoint upToSlash (s : string) : string :=
  match s with
  | EmptyString => EmptyString
  | String ch rest =>
      if Ascii.eqb ch "/"%char then EmptyString else String ch (upToSlash rest)
  end.

Definition Parse (s : string) : result url.URL :=
  if String.prefix "https://" s
  then Ok (url.mkURL "https" (upToSlash (String.substring 8 (String.length s - 8) s)))
  else Err "unsupported".

Definition now : Time := 1700000000 * time.Second.
Definition newYear2023 : Time := 1672531200 * time.Second.

Definition timeParse (layout value : string) : result Time :=
  if String.eqb value "2023-01-01T00:00:00Z" then Ok newYear2023
  else Err "cannot parse".

Definition item (guid content : string) (updated published : option Time)
  : gofeed.Item.t :=
  gofeed.Item.mk guid ("Title " +:+ guid) ("https://example.com/" +:+ guid)
    "summary" content updated published [].

(** The window of a request without [from_time] starts here. *)
Definition from : Time := time.Add now (- defaultFromDaysAgo).

Definition items : list gofeed.Item.t := [
  item "a" "" (Some (now - 5)) None;
  item "b" "already there" None (Some (now - 4));
  item "c" "" None None;
  item "d" "" None (Some (from - 1));
  item "e" "" None (Some from);
  item "f" "" (Some (now - 1)) (Some (from - 7))
].

Definition feed (feedType : string) : gofeed.Feed.t :=
  gofeed.Feed.mk "Example" "https://example.com" "An example feed"
    None None [] items feedType.

Definition ParseURL (userAgent feedURL : string) : result gofeed.Feed.t :=
  if String.eqb feedURL "https://example.com/rss" then Ok (feed "rss")
  else if String.eqb feedURL "https://example.com/atom" then Ok (feed "atom")
  else if String.eqb feedURL "https://example.com/json" then Ok (feed "json")
  else Err "not found".

(** The page of item [e] cannot be downloaded; the others can. *)
Definition FromURL (link : string) (timeout : Duration) : result readability.Article :=
  if String.eqb link "https://example.com/e" then Err "timeout"
  else Ok (readability.mkArticle ("<p>full text of " +:+ link +:+ "</p>")).

Definition render (tag : string) (f : feeds.Feed.t) : result string :=
  Ok ("<" +:+ tag +:+ ">" +:+ feeds.Feed.Title f +:+ "|" +:+
      String.concat "|" (List.map feeds.Item.Content (feeds.Feed.Items f)) +:+
      "</" +:+ tag +:+ ">").

Definition world : World :=
  mkWorld Parse now timeParse Atoi 1234567 ParseURL FromURL
    (render "rss") (render "feed") (render "json") (fun s => Ok s).

Definition request (path : string) (query : list (string * list string)) : Request :=
  mkRequest path (list_to_map query).

End Example.

(** The handler gets as far as a parsed feed: the path is neither empty
    nor the favicon, the URL is valid, [from_time] is absent or parses,
    and the download and parse of the feed succeed. *)
Definition reachesFeed (W : World) (req : Request) (fromTime : Time)
    (feed : gofeed.Feed.t) : Prop :=
  String.eqb (strings.TrimPrefix (Path req) "/") "" = false /\
  String.eqb (strings.TrimPrefix (Path req) "/") "favicon.ico" = false /\
  isValidUrl W (feedURLOf req) = true /\
  readFromTime W req = Ok fromTime /\
  gofeed_ParseURL W (getRandUserAgent W) (feedURLOf req) = Ok feed.

(** [items_cap] is absent, or [strconv.Atoi] accepts its first value. *)
Definition itemsCapAccepted (W : World) (req : Request) : bool :=
  match queryValues req itemsCapParamName with
  | value :: _ =>
      match snd (strconv_Atoi W value) with None => true | Some _ => false end
  | [] => true
  end.

(** The [Content-Type] of a format tag. *)
Definition contentTypeOf (feedType : string) : string :=
  if String.eqb feedType "json" then "application/json" else "application/xml".

(** The serializer the specification assigns to a format tag. *)
Definition serializerOf (W : World) (feedType : string)
  : option (feeds.Feed.t -> result string) :=
  if String.eqb feedType "rss" then Some (feeds_ToRss W)
  else if String.eqb feedType "atom" then Some (feeds_ToAtom W)
  else if String.eqb feedType "json" then Some (feeds_ToJSON W)
  else None.

(** A short feed, and the state its run ends in once the goroutine of the
    first item has stored the article and the wait is over. *)
Module Run.
Definition a : gofeed.Item.t := Example.item "a" "" (Some (Example.now - 5)) None.
Definition b : gofeed.Item.t :=
  Example.item "b" "already there" None (Some (Example.now - 4)).
Definition feed : gofeed.Feed.t :=
  gofeed.Feed.mk "Example" "https://example.com" "An example feed"
    None None [] [a; b] "rss".
Definition final : Machine :=
  mkMachine
    [gofeed.Item.setContent "<p>full text of https://example.com/a</p>" a; b]
    Returned 0 [(0%nat, Finished)].
End Run.

(** The world with another draw of the random source. *)
Definition withDraw (W : World) (draw : Z) : World :=
  mkWorld (url_Parse W) (time_Now W) (time_Parse W) (strconv_Atoi W) draw
    (gofeed_ParseURL W) (readability_FromURL W)
    (feeds_ToRss W) (feeds_ToAtom W) (feeds_ToJSON W) (json_Marshal W).

(** A request went out with a client identity of the pool. *)
Definition fromPool (ev : Event) : Prop :=
  exists ua, chosenUserAgent ev = Some ua /\ ua ∈ userAgents.

(** In the words of the specification: every page download of the
    enricher carries a client identity chosen from the pool. *)
Definition perItemIdentityFromPool : Prop :=
  forall W w req itemsCapByServer ev,
    ev ∈ snd (processRequest W w req itemsCapByServer) ->
    isItemFetch ev = true -> fromPool ev.

(** What the network events of a request are, by what made them. *)
Definition identityOk (W : World) (ev : Event) : Prop :=
  match ev with
  | FeedFetch _ ua => ua = getRandUserAgent W /\ ua ∈ userAgents
  | ItemFetch _ timeout => chosenUserAgent ev = None /\ timeout = defaultHTTPTimeout
  end.

(** A response nothing was written to: the client receives status 200,
    no header of the handler's and an empty body. *)
Definition empty200 (w : http.ResponseWriter) : Prop :=
  http.finish w = http.finish http.newResponseWriter.

(** ** [FnMap], statement by statement

    [out := make([]O, len(s))], then [out[i] = fn(v)] for each index and
    value of the [range]; [zero] is the zero value of [O] that [make] fills
    the slice with.  The loop state is the slice and the index. *)
Definition FnMapLoop {I O : Type} (zero : O) (s : list I) (fn : I -> O) : list O :=
  match s with
  | [] => []
  | _ =>
      fst (foldl (fun st v => (<[snd st := fn v]> (fst st), S (snd st)))
                 (replicate (length s) zero, 0%nat) s)
  end.

(** [FnMap] with the nil slice told apart from the empty one: [None] is
    nil, [Some l] a slice that is not nil.  [if s == nil { return nil }],
    then the loop, which returns the slice it made. *)
Definition FnMapSlice {I O : Type} (zero : O) (s : option (list I)) (fn : I -> O)
  : option (list O) :=
  match s with
  | None => None
  | Some l =>
      Some (fst (foldl (fun st v => (<[snd st := fn v]> (fst st), S (snd st)))
                       (replicate (length l) zero, 0%nat) l))
  end.

(** The elements of a slice, nil having none. *)
Definition sliceElements {A : Type} (s : option (list A)) : list A := default [] s.

(** A world in which the serializers fail. *)
Module Broken.
Definition serializers : World :=
  mkWorld Example.Parse Example.now Example.timeParse Example.Atoi 1234567
    Example.ParseURL Example.FromURL
    (fun _ => Err "cannot serialize") (fun _ => Err "cannot serialize")
    (fun _ => Err "cannot serialize") (fun s => Ok s).
(** A feed whose only item is one whose page cannot be downloaded. *)
Definition feed : gofeed.Feed.t :=
  gofeed.Feed.mk "Example" "https://example.com" "An example feed"
    None None [] [Example.item "e" "" None (Some Example.from)] "rss".
End Broken.


(** The path is one the handler answers itself. *)
Definition staticRoute (req : Request) : bool :=
  String.eqb (strings.TrimPrefix (Path req) "/") "" ||
  String.eqb (strings.TrimPrefix (Path req) "/") "favicon.ico".

(** An answer of the handler: one of four statuses, and plain text with
    [nosniff] when the status is 400 or more. *)
Definition wellFormedAnswer (w : http.ResponseWriter) : Prop :=
  (http.statusCode w = 200 \/ http.statusCode w = 400 \/
   http.statusCode w = 404 \/ http.statusCode w = 500) /\
  (400 <= http.statusCode w ->
   http.contentType w = ["text/plain; charset=utf-8"] /\
   http.sent w !! "X-Content-Type-Options" = Some ["nosniff"]).

(** * Properties *)

(** ** Facts about the loop *)

Lemma examine_Launch from item :
  examine from item = Launch <-> eligible from item = true.
Proof.
  unfold examine, eligible, time.Before.
  destruct (String.eqb _ _); simpl; [|split; discriminate].
  destruct (itemTime item) as [t|]; [|split; discriminate].
  destruct (Z.ltb_spec t from), (Z.leb_spec from t); split; intros; try done; lia.
Qed.

Lemma examine_not_Launch from item :
  examine from item <> Launch <-> eligible from item = false.
Proof. rewrite examine_Launch. by destruct (eligible from item). Qed.

Lemma scanLoop_cons from cap item rest i count :
  scanLoop from cap (item :: rest) i count =
    if count >=? cap then mkScan [] count i
    else if eligible from item then
      let s := scanLoop from cap rest (S i) (count + 1) in
      mkScan ((i, item) :: launched s) (finalCount s) (scanned s)
    else scanLoop from cap rest (S i) count.
Proof.
  simpl. destruct (count >=? cap); [done|].
  destruct (eligible from item) eqn:E.
  - apply examine_Launch in E. by rewrite E.
  - apply examine_not_Launch in E. by destruct (examine from item).
Qed.

(** Once the cap is reached nothing more is examined. *)
Lemma scanLoop_at_cap from cap items i count :
  cap <= count -> scanLoop from cap items i count = mkScan [] count i.
Proof.
  intros H. destruct items as [|item rest]; [done|].
  rewrite scanLoop_cons. by destruct (Z.geb_spec count cap); [|lia].
Qed.

(** The loop launches exactly the first [cap - count] eligible items. *)
Lemma scanLoop_launched from cap items : forall i count,
  launched (scanLoop from cap items i count) =
  take (Z.to_nat (cap - count))
       (List.filter (fun g => eligible from (snd g)) (enumFrom i items)).
Proof.
  induction items as [|item rest IH]; intros i count.
  - simpl. by rewrite take_nil.
  - rewrite scanLoop_cons. cbn [enumFrom List.filter snd].
    destruct (Z.geb_spec count cap) as [Hge|Hlt].
    + replace (Z.to_nat (cap - count)) with 0%nat by lia. done.
    + destruct (eligible from item); cbn [launched].
      * rewrite IH. replace (Z.to_nat (cap - count))
          with (S (Z.to_nat (cap - (count + 1)))) by lia. done.
      * apply IH.
Qed.

Lemma scanLoop_finalCount from cap items : forall i count,
  finalCount (scanLoop from cap items i count) =
  count + Z.of_nat (length (launched (scanLoop from cap items i count))).
Proof.
  induction items as [|item rest IH]; intros i count.
  - simpl. lia.
  - rewrite scanLoop_cons. destruct (count >=? cap); [simpl; lia|].
    destruct (eligible from item); cbn [launched finalCount length].
    + rewrite IH. lia.
    + apply IH.
Qed.

(** The loop stops between its starting index and the end of the list, and
    every goroutine was launched for an item it examined. *)
Lemma scanLoop_scanned from cap items : forall i count,
  (i <= scanned (scanLoop from cap items i count) <= i + length items)%nat.
Proof.
  induction items as [|item rest IH]; intros i count.
  - simpl. lia.
  - rewrite scanLoop_cons. destruct (count >=? cap); [simpl; lia|].
    destruct (eligible from item); cbn [scanned length];
      [specialize (IH (S i) (count + 1))|specialize (IH (S i) count)]; lia.
Qed.

Lemma scanLoop_launched_lookup from cap items : forall i count j item,
  (j, item) ∈ launched (scanLoop from cap items i count) ->
  (i <= j < scanned (scanLoop from cap items i count))%nat /\
  items !! (j - i)%nat = Some item /\
  eligible from item = true.
Proof.
  induction items as [|item0 rest IH]; intros i count j item.
  - simpl. by intros ?%elem_of_nil.
  - rewrite scanLoop_cons. destruct (count >=? cap); [by intros ?%elem_of_nil|].
    destruct (eligible from item0) eqn:E; cbn [launched scanned].
    + intros [Heq|Hin]%elem_of_cons.
      * injection Heq as -> ->.
        pose proof (scanLoop_scanned from cap rest (S i) (count + 1)).
        replace (i - i)%nat with 0%nat by lia. split; [lia|done].
      * destruct (IH _ _ _ _ Hin) as (Hr & Hl & He).
        replace (j - i)%nat with (S (j - S i)) by lia. split; [lia|done].
    + intros Hin. destruct (IH _ _ _ _ Hin) as (Hr & Hl & He).
      replace (j - i)%nat with (S (j - S i)) by lia. split; [lia|done].
Qed.

(** The launch indices increase strictly. *)
Lemma scanLoop_launched_increasing from cap items : forall i count,
  StronglySorted lt (launched (scanLoop from cap items i count)).*1.
Proof.
  induction items as [|item rest IH]; intros i count.
  - constructor.
  - rewrite scanLoop_cons. destruct (count >=? cap); [constructor|].
    destruct (eligible from item); cbn [launched]; [|apply IH].
    rewrite fmap_cons. constructor; [apply IH|].
    apply Forall_forall. intros j [[j' item'] [-> Hin]]%list_elem_of_fmap.
    apply scanLoop_launched_lookup in Hin. simpl. lia.
Qed.

Lemma scanLoop_launched_NoDup from cap items i count :
  NoDup (launched (scanLoop from cap items i count)).*1.
Proof.
  pose proof (scanLoop_launched_increasing from cap items i count) as H.
  induction H as [|j js Hs IH Hall]; constructor; [|done].
  intros Hin. rewrite Forall_forall in Hall. specialize (Hall _ Hin). lia.
Qed.

(** Where the loop stops: right after the item that brought the count to
    the cap, and at the end of the list when the cap is never reached. *)
Lemma scanLoop_stop from cap items : forall i count,
  scanned (scanLoop from cap items i count) =
  if finalCount (scanLoop from cap items i count) >=? cap
  then match last (launched (scanLoop from cap items i count)).*1 with
       | Some j => S j
       | None => i
       end
  else (i + length items)%nat.
Proof.
  induction items as [|item rest IH]; intros i count.
  - simpl. destruct (count >=? cap); lia.
  - rewrite scanLoop_cons. destruct (Z.geb_spec count cap) as [Hge|Hlt].
    + simpl. by destruct (Z.geb_spec count cap); [|lia].
    + destruct (eligible from item); cbn [launched finalCount scanned length].
      * rewrite IH, fmap_cons, last_cons.
        destruct (finalCount _ >=? cap); [|lia].
        by destruct (last _).
      * rewrite IH.
        pose proof (scanLoop_finalCount from cap rest (S i) count) as Hc.
        destruct (Z.geb_spec (finalCount (scanLoop from cap rest (S i) count)) cap); [|lia].
        destruct (launched (scanLoop from cap rest (S i) count)) as [|g gs] eqn:E.
        -- simpl in Hc. lia.
        -- by destruct (last (g :: gs).*1) eqn:El; [|apply last_None in El].
Qed.

(** ** Facts about the goroutines *)

Lemma enrich_Link W item :
  gofeed.Item.Link (enrich W item) = gofeed.Item.Link item.
Proof. unfold enrich. by destruct (readability_FromURL _ _ _). Qed.

Lemma enrich_idemp W item : enrich W (enrich W item) = enrich W item.
Proof.
  unfold enrich at 1. rewrite enrich_Link. unfold enrich.
  by destruct (readability_FromURL _ _ _).
Qed.

Lemma enrich_Err W item e :
  readability_FromURL W (gofeed.Item.Link item) defaultHTTPTimeout = Err e ->
  enrich W item = item.
Proof. unfold enrich. by intros ->. Qed.

Lemma enrich_Ok W item article :
  readability_FromURL W (gofeed.Item.Link item) defaultHTTPTimeout = Ok article ->
  enrich W item = gofeed.Item.setContent (readability.Content article) item.
Proof. unfold enrich. by intros ->. Qed.

(** After the join, the item at a launched index has been enriched and
    every other item is as it was. *)
Lemma joined_lookup W gs : forall items j,
  joined W items gs !! j =
  (if bool_decide (j ∈ gs.*1) then enrich W else id) <$> items !! j.
Proof.
  unfold joined. induction gs as [|g gs IH]; intros items j.
  - simpl. by destruct (items !! j).
  - cbn [foldl]. rewrite IH, fmap_cons.
    destruct (decide (j = g.1)) as [->|Hne].
    + rewrite list_lookup_alter_eq.
      rewrite (bool_decide_eq_true_2 (g.1 ∈ g.1 :: gs.*1)) by apply list_elem_of_here.
      destruct (items !! g.1) as [item|]; [|by case_bool_decide].
      case_bool_decide; simpl; [by rewrite enrich_idemp|done].
    + rewrite list_lookup_alter_ne by done.
      case_bool_decide as H1; case_bool_decide as H2; try done.
      * exfalso. apply H2. by apply list_elem_of_further.
      * exfalso. apply elem_of_cons in H2 as [?|?]; done.
Qed.

Lemma joined_length W gs items : length (joined W items gs) = length items.
Proof.
  unfold joined. revert items.
  induction gs as [|g gs IH]; intros items; [done|].
  cbn [foldl]. by rewrite IH, length_alter.
Qed.

(** ** Facts about the interleaved run *)

Lemma fst_insert_unit (us : list (nat * UnitPc)) k i pc pc' :
  us !! k = Some (i, pc) -> (<[k := (i, pc')]> us).*1 = us.*1.
Proof.
  intros H. rewrite list_fmap_insert. apply list_insert_id.
  by rewrite list_lookup_fmap, H.
Qed.

Lemma active_insert_unit (us : list (nat * UnitPc)) : forall k u u',
  us !! k = Some u ->
  (length (List.filter active (<[k := u']> us)) + (if active u then 1 else 0) =
   length (List.filter active us) + (if active u' then 1 else 0))%nat.
Proof.
  induction us as [|u0 us IH]; intros k u u' H; [done|].
  destruct k as [|k]; simpl in *.
  - injection H as ->. destruct (active u), (active u'); simpl; lia.
  - specialize (IH _ _ u' H). destruct (active u0); simpl; lia.
Qed.

Lemma fuel_insert_unit (us : list (nat * UnitPc)) : forall k u u',
  us !! k = Some u ->
  (sum_list_with unitFuel (<[k := u']> us) + unitFuel u =
   sum_list_with unitFuel us + unitFuel u')%nat.
Proof.
  induction us as [|u0 us IH]; intros k u u' H; [done|].
  destruct k as [|k]; simpl in *.
  - injection H as ->. lia.
  - specialize (IH _ _ u' H). lia.
Qed.

Lemma unit_index_unique (us : list (nat * UnitPc)) k k' i pc pc' :
  NoDup us.*1 -> us !! k = Some (i, pc) -> us !! k' = Some (i, pc') -> k = k'.
Proof.
  intros Hnd H H'. eapply NoDup_lookup; [exact Hnd| |];
    rewrite list_lookup_fmap; [by rewrite H|by rewrite H'].
Qed.

Lemma Inv_start W from itemsCap orig : Inv W from itemsCap orig (start orig).
Proof.
  split; simpl.
  - constructor.
  - done.
  - intros k i pc H. by rewrite lookup_nil in H.
  - done.
  - split; [by intros j ?%elem_of_nil|]. by rewrite drop_0.
Qed.

Lemma Inv_lookup_is_Some W from itemsCap orig m j :
  Inv W from itemsCap orig m -> is_Some (store m !! j) <-> is_Some (orig !! j).
Proof.
  intros [_ _ Hunit Hrest _].
  destruct (decide (j ∈ (units m).*1)) as [Hin|Hnin].
  - apply list_elem_of_fmap in Hin as ([j' pc] & -> & Hin).
    apply list_elem_of_lookup in Hin as [k Hk].
    destruct (Hunit _ _ _ Hk) as (item & Ho & Hs & _).
    simpl. rewrite Ho, Hs. split; eauto.
  - by rewrite Hrest.
Qed.

Lemma Inv_length W from itemsCap orig m :
  Inv W from itemsCap orig m -> length (store m) = length orig.
Proof.
  intros HI.
  destruct (Nat.lt_trichotomy (length (store m)) (length orig)) as [H|[H|H]]; [|done|].
  - apply lookup_lt_is_Some_2, (Inv_lookup_is_Some _ _ _ _ _ _ HI),
      lookup_lt_is_Some_1 in H. lia.
  - apply lookup_lt_is_Some_2, (Inv_lookup_is_Some _ _ _ _ _ _ HI),
      lookup_lt_is_Some_1 in H. lia.
Qed.

(** A goroutine that can still move keeps the counter above zero. *)
Lemma Inv_active_wg W from itemsCap orig m k u :
  Inv W from itemsCap orig m -> units m !! k = Some u -> active u = true ->
  0 < wg m.
Proof.
  intros [_ Hwg _ _ _] Hk Ha.
  pose proof (active_insert_unit _ _ _ (fst u, Finished) Hk) as H.
  rewrite Ha in H. simpl in H. lia.
Qed.

(** A move of one goroutine keeps the invariant, provided it leaves the
    other items alone and leaves its own item as its new position says. *)
Lemma Inv_unit_move W from itemsCap orig m k i pc pc' st' wg' :
  Inv W from itemsCap orig m ->
  units m !! k = Some (i, pc) ->
  active (i, pc) = true ->
  wg' = wg m - (if active (i, pc') then 0 else 1) ->
  (forall j, j <> i -> st' !! j = store m !! j) ->
  (forall item, orig !! i = Some item ->
     store m !! i = Some (if settled pc then enrich W item else item) ->
     unitOk W item pc ->
     st' !! i = Some (if settled pc' then enrich W item else item) /\
     unitOk W item pc') ->
  Inv W from itemsCap orig (mkMachine st' (mainPc m) wg' (<[k := (i, pc')]> (units m))).
Proof.
  intros HI Hk Ha -> Hother Hown.
  pose proof (Inv_active_wg _ _ _ _ _ _ _ HI Hk Ha) as Hpos.
  destruct HI as [Hnd Hwg Hunit Hrest Hmain].
  split; simpl; rewrite ?(fst_insert_unit _ _ _ _ _ Hk).
  - done.
  - pose proof (active_insert_unit _ _ _ (i, pc') Hk) as H. rewrite Ha in H.
    destruct (active (i, pc')); lia.
  - intros k' i' pc'' [(-> & Heq & _)|[Hne Hk']]%list_lookup_insert_Some.
    + injection Heq as <- <-.
      destruct (Hunit _ _ _ Hk) as (item & Ho & Hs & Hok).
      exists item. split; [done|]. by apply Hown.
    + destruct (Hunit _ _ _ Hk') as (item & Ho & Hs & Hok).
      exists item. split; [done|]. split; [|done].
      rewrite Hother; [done|]. intros ->. apply Hne.
      by eapply unit_index_unique.
  - intros j Hj. rewrite Hother; [by apply Hrest|]. intros ->. apply Hj.
    apply list_elem_of_fmap. exists (i, pc). split; [done|].
    by eapply list_elem_of_lookup_2.
  - destruct (mainPc m); [done|done|]. lia.
Qed.

(** Every step keeps the invariant. *)
Lemma Inv_step W from itemsCap orig m m' :
  Inv W from itemsCap orig m -> step W from itemsCap m m' ->
  Inv W from itemsCap orig m'.
Proof.
  intros HI Hstep. pose proof (Inv_length _ _ _ _ _ HI) as Hlen.
  pose proof HI as [Hnd Hwg Hunit Hrest Hmain].
  destruct Hstep as [m i count Hpc Hle | m i count Hpc Hlt Hcap
    | m i count item Hpc Hit Hcap Hex | m i count item Hpc Hit Hcap Hex
    | m Hpc Hz
    | m k i item article Hk Hit Hf | m k i item e Hk Hit Hf
    | m k i item content Hk Hit | m k i Hk ]; rewrite ?Hpc in Hmain.
  - destruct Hmain as [Hlt Heq]. split; simpl; try done.
    rewrite drop_ge in Heq by lia. simpl in Heq. rewrite app_nil_r in Heq. by rewrite Heq.
  - destruct Hmain as [_ Heq]. split; simpl; try done.
    rewrite (scanLoop_at_cap _ _ (drop i orig) i count) in Heq by lia. simpl in Heq.
    rewrite app_nil_r in Heq. by rewrite Heq.
  - destruct Hmain as [Hlti Heq]. split; simpl; try done.
    assert (orig !! i = Some item) as Ho.
    { rewrite <- Hrest; [done|]. intros Hin%Hlti. lia. }
    split; [intros j Hin%Hlti; lia|].
    rewrite (drop_S _ _ _ Ho), (scanLoop_cons _ _ item) in Heq.
    destruct (Z.geb_spec count itemsCap); [lia|].
    apply examine_not_Launch in Hex. by rewrite Hex in Heq.
  - destruct Hmain as [Hlti Heq].
    assert (i ∉ (units m).*1) as Hni by (intros Hin%Hlti; lia).
    assert (orig !! i = Some item) as Ho by (by rewrite <- Hrest).
    split; simpl.
    + rewrite fmap_app. apply NoDup_app. split; [done|]. split.
      * intros j Hj [->|[]%elem_of_nil]%elem_of_cons. done.
      * apply NoDup_singleton.
    + rewrite List.filter_app, length_app, Hwg. simpl. lia.
    + intros k j pc [[_ Hk]|[_ Hk]]%lookup_snoc_Some.
      * by apply Hunit in Hk.
      * injection Hk as <- <-. exists item. simpl. by rewrite Hit.
    + intros j Hj. apply Hrest. intros Hin. apply Hj.
      rewrite fmap_app. apply elem_of_app. by left.
    + split.
      * intros j. rewrite fmap_app.
        intros [Hin%Hlti|[->|[]%elem_of_nil]%elem_of_cons]%elem_of_app; simpl; lia.
      * rewrite (drop_S _ _ _ Ho), (scanLoop_cons _ _ item) in Heq.
        destruct (Z.geb_spec count itemsCap); [lia|].
        apply examine_Launch in Hex. rewrite Hex in Heq. cbn [launched] in Heq.
        by rewrite fmap_app, <- app_assoc.
  - split; simpl; done.
  - eapply Inv_unit_move; [done|exact Hk|done|simpl; lia|done|].
    intros item0 Ho Hs _. simpl in *. split; [done|].
    rewrite Hit in Hs. injection Hs as ->. by exists article.
  - eapply Inv_unit_move; [done|exact Hk|done|simpl; lia|done|].
    intros item0 Ho Hs _. simpl in *. split; [|done].
    rewrite Hit in Hs. injection Hs as ->. by erewrite enrich_Err.
  - eapply Inv_unit_move; [done|exact Hk|done|simpl; lia| |].
    + intros j Hj. by apply list_lookup_insert_ne.
    + intros item0 Ho Hs (article & Hf & ->). simpl in *. split; [|done].
      rewrite Hit in Hs. injection Hs as ->.
      rewrite list_lookup_insert_eq by (by eapply lookup_lt_Some).
      by erewrite enrich_Ok.
  - eapply Inv_unit_move; [done|exact Hk|done|simpl; lia|done|].
    intros item0 Ho Hs _. done.
Qed.

Lemma Inv_reachable W from itemsCap items m :
  reachable W from itemsCap items m -> Inv W from itemsCap items m.
Proof.
  unfold reachable. revert m. apply rtc_ind_r.
  - apply Inv_start.
  - intros m m' _ Hstep HI. by eapply Inv_step.
Qed.



(** Every step uses up fuel. *)
Lemma step_fuel W from itemsCap m m' :
  step W from itemsCap m m' -> (fuel m' < fuel m)%nat.
Proof.
  intros Hstep. unfold fuel, mainFuel.
  destruct Hstep as [m i count Hpc Hle | m i count Hpc Hlt Hcap
    | m i count item Hpc Hit Hcap Hex | m i count item Hpc Hit Hcap Hex
    | m Hpc Hz
    | m k i item article Hk Hit Hf | m k i item e Hk Hit Hf
    | m k i item content Hk Hit | m k i Hk ];
    cbn [store mainPc units]; rewrite ?Hpc, ?length_insert, ?sum_list_with_app;
    try (apply lookup_lt_Some in Hit); cbn [sum_list_with unitFuel snd]; try lia.
  all: match goal with
       | H : units _ !! ?k = Some _ |- context [<[?k := ?u]> (units _)] =>
           pose proof (fuel_insert_unit _ _ _ u H) as Hf';
           cbn [unitFuel snd] in Hf'; lia
       end.
Qed.

(** A state other than the final one has a step to take. *)
Lemma step_exists W from itemsCap orig m :
  Inv W from itemsCap orig m -> mainPc m <> Returned ->
  exists m', step W from itemsCap m m'.
Proof.
  intros HI Hpc. destruct (mainPc m) as [i count| |] eqn:Hm; [| |done].
  - destruct (store m !! i) as [item|] eqn:Hit.
    + destruct (Z_le_gt_dec itemsCap count) as [Hcap|Hcap].
      * eexists. eapply step_break; [done| |done]. by eapply lookup_lt_Some.
      * destruct (examine from item) eqn:Hex;
          eexists; first [by eapply step_go; [done..|lia|done]
                         |eapply step_continue; [done|done|lia|by rewrite Hex]].
    + eexists. eapply step_end; [done|]. by apply lookup_ge_None.
  - destruct (decide (wg m = 0)) as [Hz|Hnz]; [eexists; by apply step_wait|].
    assert (exists k u, units m !! k = Some u /\ active u = true) as (k & [i pc] & Hk & Ha).
    { destruct HI as [_ Hwg _ _ _].
      destruct (List.filter active (units m)) as [|u us] eqn:E; [simpl in Hwg; lia|].
      assert (In u (List.filter active (units m))) as Hin by (rewrite E; by left).
      apply List.filter_In in Hin as [Hin Ha].
      apply list_elem_of_In, list_elem_of_lookup in Hin as [k Hk]. eauto. }
    destruct (inv_unit _ _ _ _ _ HI _ _ _ Hk) as (item & Ho & Hs & Hok).
    destruct pc as [|content| |]; [| | |done].
    + destruct (readability_FromURL W (gofeed.Item.Link item) defaultHTTPTimeout)
        as [article|e] eqn:Hf; eexists.
      * by eapply step_fetch_ok.
      * by eapply step_fetch_err.
    + eexists. by eapply step_store.
    + eexists. by eapply step_done.
Qed.


(** ** Facts about the handler *)

Lemma fetchFeedItems_FeedType W feed from itemsCap :
  gofeed.Feed.FeedType (fst (fetchFeedItems W feed from itemsCap)) =
  gofeed.Feed.FeedType feed.
Proof. done. Qed.

Lemma fetchFeedItems_Items W feed from itemsCap :
  gofeed.Feed.Items (fst (fetchFeedItems W feed from itemsCap)) =
  joined W (gofeed.Feed.Items feed)
    (launched (scanLoop from itemsCap (gofeed.Feed.Items feed) 0 0)).
Proof. done. Qed.

Lemma FnMap_map {I O : Type} (s : list I) (fn : I -> O) : FnMap s fn = fn <$> s.
Proof. by destruct s. Qed.

Lemma newFeed_Items feed :
  feeds.Feed.Items (newFeed feed) = newItem <$> gofeed.Feed.Items feed.
Proof. apply FnMap_map. Qed.

(** A request that gets as far as a parsed feed is answered by the
    [switch], on the feed assembled after the join. *)
Lemma processRequest_reachesFeed W w req itemsCapByServer fromTime feed :
  reachesFeed W req fromTime feed ->
  processRequest W w req itemsCapByServer =
  (respond W (snd (readItemsCap W w req itemsCapByServer))
     (assembled W feed fromTime (fst (readItemsCap W w req itemsCapByServer)))
     (gofeed.Feed.FeedType feed),
   FeedFetch (feedURLOf req) (getRandUserAgent W) ::
   itemFetches (launched (scanLoop fromTime
     (fst (readItemsCap W w req itemsCapByServer)) (gofeed.Feed.Items feed) 0 0))).
Proof.
  intros (H1 & H2 & H3 & H4 & H5). unfold processRequest, feedURLOf in *.
  rewrite H1, H2, H3, H4. simpl.
  destruct (readItemsCap W w req itemsCapByServer) as [itemsCap w'].
  unfold fetchFeed. rewrite H5. reflexivity.
Qed.

Lemma readItemsCap_accepted W w req itemsCapByServer :
  itemsCapAccepted W req = true ->
  snd (readItemsCap W w req itemsCapByServer) = w.
Proof.
  unfold itemsCapAccepted, readItemsCap.
  destruct (queryValues req itemsCapParamName) as [|value ?]; [done|].
  by destruct (strconv_Atoi W value) as [n [e|]].
Qed.

(** A rejected [items_cap]: the handler has answered 400 and goes on with
    the value [strconv.Atoi] returned. *)
Lemma readItemsCap_rejected W w req itemsCapByServer :
  itemsCapAccepted W req = false ->
  exists value rest,
    queryValues req itemsCapParamName = value :: rest /\
    readItemsCap W w req itemsCapByServer =
      (fst (strconv_Atoi W value),
       http.Error w (cantParse fromTimeParamName) http.StatusBadRequest).
Proof.
  unfold itemsCapAccepted, readItemsCap.
  destruct (queryValues req itemsCapParamName) as [|value rest]; [done|].
  destruct (strconv_Atoi W value) as [n [e|]] eqn:E; [|done].
  intros _. exists value, rest. by rewrite E.
Qed.

(** ** Selection *)

Lemma enumFrom_snd items : forall i, (enumFrom i items).*2 = items.
Proof. induction items as [|item rest IH]; intros i; [done|]. simpl. by rewrite IH. Qed.

Lemma filter_enumFrom_snd (P : gofeed.Item.t -> bool) items : forall i,
  (List.filter (fun g => P (snd g)) (enumFrom i items)).*2 = List.filter P items.
Proof.
  induction items as [|item rest IH]; intros i; [done|].
  simpl. destruct (P item); simpl; by rewrite IH.
Qed.

(** The items the loop launches a goroutine for: the first [cap] eligible
    ones. *)
Lemma scanLoop_launched_items from itemsCap items :
  (launched (scanLoop from itemsCap items 0 0)).*2 =
  take (Z.to_nat itemsCap) (List.filter (eligible from) items).
Proof.
  rewrite scanLoop_launched, Z.sub_0_r, fmap_take. f_equal.
  apply filter_enumFrom_snd.
Qed.

(** The loop selects as the specification says. *)
Lemma scanLoop_selectSpec from itemsCap items :
  launched (scanLoop from itemsCap items 0 0) = selectSpec from itemsCap items.
Proof. unfold selectSpec. by rewrite scanLoop_launched, Z.sub_0_r. Qed.

(** What the join leaves at an index for which no goroutine was launched. *)
Lemma joined_lookup_other W items gs j :
  j ∉ gs.*1 -> joined W items gs !! j = items !! j.
Proof.
  intros H. rewrite joined_lookup, bool_decide_eq_false_2 by done.
  by destruct (items !! j).
Qed.

(** What the join leaves at the index of a launched goroutine. *)
Lemma joined_lookup_launched W from itemsCap items j item :
  (j, item) ∈ launched (scanLoop from itemsCap items 0 0) ->
  joined W items (launched (scanLoop from itemsCap items 0 0)) !! j =
  Some (enrich W item).
Proof.
  intros Hin. rewrite joined_lookup, bool_decide_eq_true_2.
  - apply scanLoop_launched_lookup in Hin as (_ & Hl & _).
    rewrite Nat.sub_0_r in Hl. by rewrite Hl.
  - apply list_elem_of_fmap. by exists (j, item).
Qed.

(** C2: for every list of items, lower bound [from] and cap, the loop goes
    through the items in source order and launches a goroutine for the
    first [cap] items that have empty content and a timestamp not before
    [from], and for no other; it stops right after the item that brought
    the count to the cap (at the end of the list when the cap is not
    reached), and the items from there on are in the output as they were. *)
Theorem C2_selection_capped W feed from itemsCap :
  let items := gofeed.Feed.Items feed in
  let s := scanLoop from itemsCap items 0 0 in
  let out := gofeed.Feed.Items (fst (fetchFeedItems W feed from itemsCap)) in
  launched s = selectSpec from itemsCap items /\
  (length (launched s) <= Z.to_nat itemsCap)%nat /\
  StronglySorted lt (launched s).*1 /\
  scanned s =
    (if Z.of_nat (length (launched s)) >=? itemsCap
     then match last (launched s).*1 with Some j => S j | None => 0%nat end
     else length items) /\
  drop (scanned s) out = drop (scanned s) items.
Proof.
  intros items s out.
  assert (launched s = selectSpec from itemsCap items) as Hsel
    by apply scanLoop_selectSpec.
  split; [done|]. split; [|split; [|split]].
  - rewrite Hsel. unfold selectSpec. rewrite length_take. lia.
  - apply scanLoop_launched_increasing.
  - unfold s. rewrite scanLoop_stop, scanLoop_finalCount. by rewrite Z.add_0_l.
  - apply list_eq. intros k. rewrite !lookup_drop.
    unfold out. rewrite fetchFeedItems_Items. apply joined_lookup_other.
    intros ([j item] & Hj & Hin)%list_elem_of_fmap.
    apply scanLoop_launched_lookup in Hin as (Hlt & _). simpl in Hj. fold items s in Hlt. lia.
Qed.

(** The specification's scenario: three items with empty content, all
    inside the window, and a cap of two. *)
Example scenario_three_items_cap_two :
  let it guid := Example.item guid "" (Some Example.now) None in
  let feed := gofeed.Feed.mk "T" "L" "D" None None [] [it "x"; it "y"; it "z"] "rss" in
  (launched (scanLoop Example.from 2 (gofeed.Feed.Items feed) 0 0)).*1 = [0; 1]%nat /\
  gofeed.Item.Content <$>
    (gofeed.Feed.Items (fst (fetchFeedItems Example.world feed Example.from 2))) =
  ["<p>full text of https://example.com/x</p>";
   "<p>full text of https://example.com/y</p>"; ""].
Proof. split; reflexivity. Qed.

(** An item that is not eligible can be taken out of the list without
    changing which items are selected. *)
Lemma filter_delete_not_eligible from items j item :
  items !! j = Some item -> eligible from item = false ->
  List.filter (eligible from) (delete j items) = List.filter (eligible from) items.
Proof.
  intros Hj He. rewrite <- (take_drop_middle _ _ _ Hj) at 2.
  rewrite delete_take_drop, !List.filter_app. simpl. by rewrite He.
Qed.

Lemma eligible_content from item :
  eligible from item = true -> gofeed.Item.Content item = "".
Proof.
  unfold eligible. intros [H _]%andb_true_iff. by apply String.eqb_eq.
Qed.

(** The goroutines of a state are among those the whole loop launches. *)
Lemma Inv_units_launched W from itemsCap orig m j :
  Inv W from itemsCap orig m -> j ∈ (units m).*1 ->
  j ∈ (launched (scanLoop from itemsCap orig 0 0)).*1.
Proof.
  intros [_ _ _ _ Hmain] Hj. destruct (mainPc m).
  - destruct Hmain as [_ ->]. apply elem_of_app. by left.
  - by rewrite <- Hmain.
  - destruct Hmain as [<- _]. done.
Qed.

(** C3: an item whose content is not empty on input is never selected (no
    goroutine is launched for it, in any state of the run), does not count
    against the cap (the same items are selected as when it is taken out
    of the list), and has the same content after the whole pipeline: in
    the feed [fetchFeedItems] returns and in the feed handed to the
    serializers. *)
Theorem C3_content_items_untouched W feed from itemsCap j item :
  gofeed.Feed.Items feed !! j = Some item ->
  gofeed.Item.Content item <> "" ->
  let items := gofeed.Feed.Items feed in
  (j ∉ (launched (scanLoop from itemsCap items 0 0)).*1) /\
  (forall m, reachable W from itemsCap items m -> j ∉ (units m).*1) /\
  (launched (scanLoop from itemsCap (delete j items) 0 0)).*2 =
    (launched (scanLoop from itemsCap items 0 0)).*2 /\
  gofeed.Feed.Items (fst (fetchFeedItems W feed from itemsCap)) !! j = Some item /\
  feeds.Item.Content <$> (feeds.Feed.Items (assembled W feed from itemsCap) !! j) =
    Some (gofeed.Item.Content item).
Proof.
  intros Hj Hc items.
  assert (eligible from item = false) as He.
  { destruct (eligible from item) eqn:E; [|done]. by apply eligible_content in E. }
  assert (j ∉ (launched (scanLoop from itemsCap items 0 0)).*1) as Hnot.
  { intros ([j' item'] & Hjj & Hin)%list_elem_of_fmap. simpl in Hjj. subst j'.
    apply scanLoop_launched_lookup in Hin as (_ & Hl & He').
    rewrite Nat.sub_0_r in Hl. fold items in Hj. congruence. }
  assert (gofeed.Feed.Items (fst (fetchFeedItems W feed from itemsCap)) !! j = Some item)
    as Hout.
  { rewrite fetchFeedItems_Items, joined_lookup_other; done. }
  split; [done|]. split; [|split; [|split; [done|]]].
  - intros m Hm Hin. apply Hnot.
    eapply Inv_units_launched; [by apply Inv_reachable|done].
  - rewrite !scanLoop_launched_items. f_equal.
    by eapply filter_delete_not_eligible.
  - unfold assembled. by rewrite newFeed_Items, list_lookup_fmap, Hout.
Qed.

(** C3 at the second item of the example feed, which comes with content. *)
Lemma C3_content_items_untouched_witness :
  let feed := Example.feed "rss" in
  let item := Example.item "b" "already there" None (Some (Example.now - 4)) in
  feeds.Item.Content <$>
    (feeds.Feed.Items (assembled Example.world feed Example.from 10) !! 1%nat) =
  Some "already there".
Proof.
  intros feed item.
  apply (C3_content_items_untouched Example.world feed Example.from 10 1 item);
    [reflexivity | discriminate].
Defined.

(** ** Timestamps *)

(** C4: the timestamp of an item is its updated time when it has one, else
    its published time, else none.  An item without timestamp, or whose
    timestamp is strictly before [from], is passed over with the count
    unchanged (the loop goes on as if it started at the next item), and no
    goroutine is ever launched for an item without a timestamp not before
    [from]; an item with empty content whose timestamp equals [from] is
    accepted when the cap is not reached. *)
Theorem C4_timestamp_resolution from itemsCap item rest i count :
  itemTime item =
    match gofeed.Item.UpdatedParsed item with
    | Some t => Some t
    | None => gofeed.Item.PublishedParsed item
    end /\
  (itemTime item = None \/ (exists t, itemTime item = Some t /\ t < from) ->
   count < itemsCap ->
   scanLoop from itemsCap (item :: rest) i count =
   scanLoop from itemsCap rest (S i) count) /\
  (itemTime item = Some from -> gofeed.Item.Content item = "" ->
   count < itemsCap ->
   scanLoop from itemsCap (item :: rest) i count =
   let s := scanLoop from itemsCap rest (S i) (count + 1) in
   mkScan ((i, item) :: launched s) (finalCount s) (scanned s)) /\
  (forall items j it,
     (j, it) ∈ launched (scanLoop from itemsCap items 0 0) ->
     exists t, itemTime it = Some t /\ from <= t).
Proof.
  split; [|split; [|split]].
  - unfold itemTime. by destruct (gofeed.Item.UpdatedParsed item),
      (gofeed.Item.PublishedParsed item).
  - intros Hskip Hcap. rewrite scanLoop_cons.
    destruct (Z.geb_spec count itemsCap); [lia|].
    assert (eligible from item = false) as ->; [|done].
    unfold eligible. destruct Hskip as [->|(t & -> & Hlt)].
    + apply andb_false_r.
    + destruct (Z.leb_spec from t); [lia|]. apply andb_false_r.
  - intros Ht Hc Hcap. rewrite scanLoop_cons.
    destruct (Z.geb_spec count itemsCap); [lia|].
    assert (eligible from item = true) as ->; [|done].
    unfold eligible. rewrite Ht, Hc, Z.leb_refl. done.
  - intros items j it Hin.
    apply scanLoop_launched_lookup in Hin as (_ & _ & He).
    unfold eligible in He. apply andb_true_iff in He as [_ He].
    destruct (itemTime it) as [t|]; [|done].
    exists t. split; [done|]. by apply Z.leb_le.
Qed.

(** The specification's scenario: with [from_time=2023-01-01T00:00:00Z], an
    item published a day earlier is left out and one published months
    later is taken. *)
Example scenario_from_time :
  let day := 86400 * time.Second in
  let early := Example.item "early" "" None (Some (Example.newYear2023 - day)) in
  let late := Example.item "late" "" None (Some (Example.newYear2023 + 151 * day)) in
  launched (scanLoop Example.newYear2023 10 [early; late] 0 0) = [(1%nat, late)].
Proof. reflexivity. Qed.

(** ** Enrichment *)

Lemma WriteHeader_body code w : http.body (http.WriteHeader code w) = http.body w.
Proof. unfold http.WriteHeader. by destruct (http.status w). Qed.

Lemma Write_body data w : http.body (http.Write data w) = http.body w +:+ data.
Proof. unfold http.Write. simpl. by rewrite WriteHeader_body. Qed.

(** What the client is sent for a serialized feed: the output of the
    serializer, and for the tag [json] its encoding. *)
Lemma respond_appends W w feedNew feedType ser body :
  serializerOf W feedType = Some ser ->
  ser feedNew = Ok body ->
  (String.eqb feedType "json" = true -> exists encoded, json_Marshal W body = Ok encoded) ->
  http.body (respond W w feedNew feedType) =
  http.body w +:+
    (match json_Marshal W body with
     | Ok encoded => if String.eqb feedType "json" then encoded else body
     | Err _ => body
     end +:+ fmt.newline).
Proof.
  unfold serializerOf, respond, fmt.Fprintln.
  destruct (String.eqb feedType "rss") eqn:Erss.
  { apply String.eqb_eq in Erss. subst feedType.
    intros [= <-] -> _. rewrite Write_body. simpl. by destruct (json_Marshal W body). }
  destruct (String.eqb feedType "atom") eqn:Eatom.
  { apply String.eqb_eq in Eatom. subst feedType.
    intros [= <-] -> _. rewrite Write_body. simpl. by destruct (json_Marshal W body). }
  destruct (String.eqb feedType "json") eqn:Ejson; [|done].
  intros [= <-] -> [encoded Henc]; [done|].
  unfold json.Encode. rewrite Henc. by rewrite Write_body.
Qed.

(** What the [switch] makes of a response nothing was written to, when the
    serializer of the tag succeeds: status 200, the [Content-Type] of the
    tag, and the serialized feed as body. *)
Lemma respond_served W feedNew feedType ser body :
  serializerOf W feedType = Some ser ->
  ser feedNew = Ok body ->
  (String.eqb feedType "json" = true -> exists encoded, json_Marshal W body = Ok encoded) ->
  let w := respond W http.newResponseWriter feedNew feedType in
  http.status w = Some http.StatusOK /\
  http.contentType w = [contentTypeOf feedType] /\
  http.body w =
    match json_Marshal W body with
    | Ok encoded => if String.eqb feedType "json" then encoded else body
    | Err _ => body
    end +:+ fmt.newline.
Proof.
  unfold serializerOf, respond, contentTypeOf.
  destruct (String.eqb feedType "rss") eqn:Erss.
  { apply String.eqb_eq in Erss. subst feedType.
    intros [= <-] -> _. simpl. by destruct (json_Marshal W body). }
  destruct (String.eqb feedType "atom") eqn:Eatom.
  { apply String.eqb_eq in Eatom. subst feedType.
    intros [= <-] -> _. simpl. by destruct (json_Marshal W body). }
  destruct (String.eqb feedType "json") eqn:Ejson; [|done].
  intros [= <-] -> [encoded Henc]; [done|].
  unfold json.Encode. rewrite Henc. done.
Qed.

(** C5: for a request that gets as far as a parsed feed, and an item the
    loop selected.  When the download or the extraction fails, the item is
    in the output as it was, and the feed handed to the serializers has
    its content as it was.  When they succeed, the content of the item,
    and no other field, is that of the article, and so it is in the feed
    handed to the serializers.  Either way no item is lost and the request
    is answered with the feed: what the serializer made of the assembled
    feed is appended to the response, which is a 200 of the format's
    [Content-Type] when [items_cap] was absent or accepted. *)
Theorem C5_failed_enrichment_is_local W req itemsCapByServer fromTime feed j item :
  reachesFeed W req fromTime feed ->
  let r := readItemsCap W http.newResponseWriter req itemsCapByServer in
  (j, item) ∈ launched (scanLoop fromTime (fst r) (gofeed.Feed.Items feed) 0 0) ->
  let out := gofeed.Feed.Items (fst (fetchFeedItems W feed fromTime (fst r))) in
  let feedNew := assembled W feed fromTime (fst r) in
  let w := fst (processRequest W http.newResponseWriter req itemsCapByServer) in
  (forall e,
     readability_FromURL W (gofeed.Item.Link item) defaultHTTPTimeout = Err e ->
     out !! j = Some item /\
     feeds.Item.Content <$> (feeds.Feed.Items feedNew !! j) =
       Some (gofeed.Item.Content item)) /\
  (forall article,
     readability_FromURL W (gofeed.Item.Link item) defaultHTTPTimeout = Ok article ->
     exists item',
       out !! j = Some item' /\
       gofeed.Item.Content item' = readability.Content article /\
       gofeed.Item.GUID item' = gofeed.Item.GUID item /\
       gofeed.Item.Title item' = gofeed.Item.Title item /\
       gofeed.Item.Link item' = gofeed.Item.Link item /\
       gofeed.Item.Description item' = gofeed.Item.Description item /\
       gofeed.Item.UpdatedParsed item' = gofeed.Item.UpdatedParsed item /\
       gofeed.Item.PublishedParsed item' = gofeed.Item.PublishedParsed item /\
       gofeed.Item.Authors item' = gofeed.Item.Authors item /\
       feeds.Item.Content <$> (feeds.Feed.Items feedNew !! j) =
         Some (readability.Content article)) /\
  length out = length (gofeed.Feed.Items feed) /\
  length (feeds.Feed.Items feedNew) = length (gofeed.Feed.Items feed) /\
  (forall ser body,
     serializerOf W (gofeed.Feed.FeedType feed) = Some ser ->
     ser feedNew = Ok body ->
     (String.eqb (gofeed.Feed.FeedType feed) "json" = true ->
      exists encoded, json_Marshal W body = Ok encoded) ->
     let sent :=
       match json_Marshal W body with
       | Ok encoded =>
           if String.eqb (gofeed.Feed.FeedType feed) "json" then encoded else body
       | Err _ => body
       end +:+ fmt.newline in
     http.body w = http.body (snd r) +:+ sent /\
     (itemsCapAccepted W req = true ->
      http.status w = Some 200 /\
      http.contentType w = [contentTypeOf (gofeed.Feed.FeedType feed)] /\
      http.body w = sent)).
Proof.
  intros Hreq r Hin out feedNew w.
  assert (out !! j = Some (enrich W item)) as Hout.
  { unfold out. rewrite fetchFeedItems_Items. by apply joined_lookup_launched. }
  assert (feeds.Feed.Items feedNew !! j = Some (newItem (enrich W item))) as Hnew.
  { unfold feedNew, assembled. rewrite newFeed_Items, list_lookup_fmap.
    fold out. by rewrite Hout. }
  assert (length out = length (gofeed.Feed.Items feed)) as Hlen.
  { unfold out. by rewrite fetchFeedItems_Items, joined_length. }
  assert (w = respond W (snd r) feedNew (gofeed.Feed.FeedType feed)) as Hw.
  { unfold w. by rewrite (processRequest_reachesFeed _ _ _ _ _ _ Hreq). }
  split; [|split; [|split; [|split]]].
  - intros e He. rewrite (enrich_Err _ _ _ He) in Hout, Hnew.
    split; [done|]. by rewrite Hnew.
  - intros article Ha. unfold enrich in Hout, Hnew. rewrite Ha in Hout, Hnew.
    eexists. split; [exact Hout|]. rewrite Hnew. by repeat split.
  - done.
  - unfold feedNew, assembled. rewrite newFeed_Items, length_fmap. exact Hlen.
  - intros ser body Hser Hbody Hjson sent. split.
    + rewrite Hw. by apply (respond_appends _ _ _ _ ser).
    + intros Hcap. rewrite Hw. unfold r.
      rewrite (readItemsCap_accepted _ _ _ _ Hcap).
      exact (respond_served _ _ _ _ _ Hser Hbody Hjson).
Qed.

(** C5 on the example feed: the page of the fifth item cannot be
    downloaded and the item is as it was; the page of the first can, and
    the item has its text; the answer carries all six items. *)
Lemma C5_failed_enrichment_is_local_witness :
  let req := Example.request "/example.com/rss" [] in
  let out := gofeed.Feed.Items
    (fst (fetchFeedItems Example.world (Example.feed "rss") Example.from 10)) in
  out !! 4%nat = Some (Example.item "e" "" None (Some Example.from)) /\
  gofeed.Item.Content <$> (out !! 0%nat) =
    Some "<p>full text of https://example.com/a</p>" /\
  http.body (fst (processRequest Example.world http.newResponseWriter req 10)) =
    "<rss>Example (repacked by go-morss)|<p>full text of https://example.com/a</p>|already there||||<p>full text of https://example.com/f</p></rss>"
    +:+ fmt.newline.
Proof.
  intros req out.
  set (a := Example.item "a" "" (Some (Example.now - 5)) None).
  set (e := Example.item "e" "" None (Some Example.from)).
  assert (reachesFeed Example.world req Example.from (Example.feed "rss")) as Hreq
    by (repeat split; reflexivity).
  assert ((4%nat, e) ∈ launched (scanLoop Example.from 10
            (gofeed.Feed.Items (Example.feed "rss")) 0 0)) as Hine
    by (vm_compute; apply list_elem_of_further, list_elem_of_here).
  assert ((0%nat, a) ∈ launched (scanLoop Example.from 10
            (gofeed.Feed.Items (Example.feed "rss")) 0 0)) as Hina
    by (vm_compute; apply list_elem_of_here).
  destruct (C5_failed_enrichment_is_local Example.world req 10 Example.from
              (Example.feed "rss") 4 e Hreq Hine) as (Hfail & _ & _ & _ & Hanswer).
  destruct (C5_failed_enrichment_is_local Example.world req 10 Example.from
              (Example.feed "rss") 0 a Hreq Hina) as (_ & Hok & _).
  split; [|split].
  - destruct (Hfail "timeout") as [Hout _]; [reflexivity|exact Hout].
  - destruct (Hok (readability.mkArticle "<p>full text of https://example.com/a</p>"))
      as (item' & Hout & Hc & _); [reflexivity|].
    change (out !! 0%nat = Some item') in Hout. rewrite Hout. simpl. by rewrite Hc.
  - destruct (Hanswer (Example.render "rss") _ eq_refl eq_refl) as [_ Hb];
      [discriminate|].
    destruct (Hb eq_refl) as (_ & _ & Hbody). exact Hbody.
Defined.

(** ** The join *)


(** A run of the short feed: the loop launches a goroutine for [a], passes
    over [b] and reaches the end; the goroutine downloads, stores and
    ends; the wait is over. *)
Lemma Run_final_reachable :
  reachable Example.world Example.from 10 (gofeed.Feed.Items Run.feed) Run.final.
Proof.
  unfold reachable.
  eapply rtc_l; [by eapply (step_go _ _ _ _ 0%nat 0 Run.a)|]. simpl.
  eapply rtc_l; [by eapply (step_continue _ _ _ _ 1%nat 1 Run.b)|]. simpl.
  eapply rtc_l; [by eapply (step_end _ _ _ _ 2%nat 1); simpl; [|lia]|]. simpl.
  eapply rtc_l; [by eapply (step_fetch_ok _ _ _ _ 0%nat 0%nat Run.a)|]. simpl.
  eapply rtc_l; [by eapply (step_store _ _ _ _ 0%nat 0%nat Run.a)|]. simpl.
  eapply rtc_l; [by eapply (step_done _ _ _ _ 0%nat 0%nat)|]. simpl.
  eapply rtc_l; [by eapply step_wait|]. simpl.
  apply rtc_refl.
Qed.


(** ** Client identity *)

Lemma getRandUserAgent_in_pool W : getRandUserAgent W ∈ userAgents.
Proof.
  unfold getRandUserAgent, rand_Intn. apply list_elem_of_In, nth_In.
  pose proof (Z.mod_pos_bound (rand_Int63 W) (Z.of_nat (length userAgents))) as H.
  simpl in *. lia.
Qed.

(** Every user agent of the pool is the choice of some draw. *)
Lemma getRandUserAgent_any W ua :
  ua ∈ userAgents -> exists draw, getRandUserAgent (withDraw W draw) = ua.
Proof.
  intros [k Hk]%list_elem_of_lookup. exists (Z.of_nat k).
  pose proof (lookup_lt_Some _ _ _ Hk) as Hlt.
  unfold getRandUserAgent, rand_Intn. cbn [withDraw rand_Int63].
  rewrite Z.mod_small by lia. rewrite Nat2Z.id.
  by apply nth_lookup_Some.
Qed.

Lemma itemFetches_identityOk W gs : Forall (identityOk W) (itemFetches gs).
Proof. induction gs as [|g gs IH]; constructor; done. Qed.

Lemma processRequest_events W w req itemsCapByServer :
  Forall (identityOk W) (snd (processRequest W w req itemsCapByServer)).
Proof.
  unfold processRequest, fetchFeed, fetchFeedItems.
  repeat match goal with
         | |- context [if ?b then _ else _] => destruct b
         | |- context [match ?x with Ok _ => _ | Err _ => _ end] => destruct x
         | |- context [let '(_, _) := ?x in _] => destruct x
         end; simpl; try by constructor.
  all: constructor; [split; [done|apply getRandUserAgent_in_pool]|];
    first [apply itemFetches_identityOk | constructor].
Qed.

(** The page downloads of the example request carry no client identity of
    the pool: the program passes the link and the timeout, nothing else. *)
Lemma C8_per_item_identity_counterexample : ~ perItemIdentityFromPool.
Proof.
  intros H.
  destruct (H Example.world http.newResponseWriter
              (Example.request "/example.com/rss" []) 10
              (ItemFetch "https://example.com/a" defaultHTTPTimeout))
    as (ua & Hua & _).
  - vm_compute. apply list_elem_of_further, list_elem_of_here.
  - reflexivity.
  - discriminate Hua.
Qed.

(** C8, amended: the client identity chosen at random from the pool is
    that of the feed download ([fetchFeed] sets it on the parser, and it
    is the pool's entry at the index drawn); a page download of an item is
    given the link and the fixed timeout and no client identity.  Every
    entry of the pool is the choice of some draw. *)
Theorem C8_identity_of_feed_download W w req itemsCapByServer :
  Forall (identityOk W) (snd (processRequest W w req itemsCapByServer)) /\
  getRandUserAgent W ∈ userAgents /\
  (forall ua, ua ∈ userAgents ->
     exists draw, getRandUserAgent (withDraw W draw) = ua).
Proof.
  split; [apply processRequest_events|].
  split; [apply getRandUserAgent_in_pool|].
  intros ua. apply getRandUserAgent_any.
Qed.

(** ** The output feed *)

Lemma length_append s t :
  String.length (s +:+ t) = (String.length s + String.length t)%nat.
Proof. induction s as [|c s IH]; simpl; [done|]. by rewrite IH. Qed.

Lemma newFeed_Title feed :
  feeds.Feed.Title (newFeed feed) =
  gofeed.Feed.Title feed +:+ " (repacked by go-morss)".
Proof. done. Qed.

(** C9: for a request that gets as far as a parsed feed, the handler
    answers with the [switch] applied to a feed whose title is the title
    of the input feed followed by [" (repacked by go-morss)"]; that title
    is never the input title itself. *)
Theorem C9_title_suffix W req itemsCapByServer fromTime feed :
  reachesFeed W req fromTime feed ->
  let r := readItemsCap W http.newResponseWriter req itemsCapByServer in
  let feedNew := assembled W feed fromTime (fst r) in
  fst (processRequest W http.newResponseWriter req itemsCapByServer) =
    respond W (snd r) feedNew (gofeed.Feed.FeedType feed) /\
  feeds.Feed.Title feedNew = gofeed.Feed.Title feed +:+ " (repacked by go-morss)" /\
  feeds.Feed.Title feedNew <> gofeed.Feed.Title feed.
Proof.
  intros Hreq r feedNew. split; [|split].
  - by rewrite (processRequest_reachesFeed _ _ _ _ _ _ Hreq).
  - done.
  - unfold feedNew, assembled. rewrite newFeed_Title. simpl.
    intros Heq. apply (f_equal String.length) in Heq.
    rewrite length_append in Heq. simpl in Heq. lia.
Qed.

(** C9 on the example feed, with the body the client receives. *)
Lemma C9_title_suffix_witness :
  let req := Example.request "/example.com/atom" [("items_cap", ["0"])] in
  feeds.Feed.Title (assembled Example.world (Example.feed "atom") Example.from 0) =
    "Example (repacked by go-morss)" /\
  http.body (fst (processRequest Example.world http.newResponseWriter req 10)) =
    "<feed>Example (repacked by go-morss)||already there||||</feed>" +:+ fmt.newline.
Proof.
  intros req.
  assert (reachesFeed Example.world req Example.from (Example.feed "atom")) as Hreq
    by (repeat split; reflexivity).
  destruct (C9_title_suffix Example.world req 10 Example.from (Example.feed "atom") Hreq)
    as (Hresp & Htitle & _).
  split; [exact Htitle|]. rewrite Hresp. reflexivity.
Defined.

(** ** The [switch] on the format tag *)


(** On every request whose [items_cap] is absent or accepted, a feed that
    is fetched and serialized is answered in the format of its tag. *)
Lemma format_preserved_when_items_cap_accepted W req itemsCapByServer fromTime feed ser body :
  reachesFeed W req fromTime feed ->
  itemsCapAccepted W req = true ->
  serializerOf W (gofeed.Feed.FeedType feed) = Some ser ->
  ser (assembled W feed fromTime
         (fst (readItemsCap W http.newResponseWriter req itemsCapByServer))) = Ok body ->
  (String.eqb (gofeed.Feed.FeedType feed) "json" = true ->
   exists encoded, json_Marshal W body = Ok encoded) ->
  let w := fst (processRequest W http.newResponseWriter req itemsCapByServer) in
  http.status w = Some http.StatusOK /\
  http.contentType w = [contentTypeOf (gofeed.Feed.FeedType feed)] /\
  http.body w =
    match json_Marshal W body with
    | Ok encoded =>
        if String.eqb (gofeed.Feed.FeedType feed) "json" then encoded else body
    | Err _ => body
    end +:+ fmt.newline.
Proof.
  intros Hreq Hcap Hser Hbody Hjson w. unfold w.
  rewrite (processRequest_reachesFeed _ _ _ _ _ _ Hreq). cbn [fst].
  rewrite (readItemsCap_accepted _ _ _ _ Hcap).
  exact (respond_served _ _ _ _ _ Hser Hbody Hjson).
Qed.

(** The request of the failing input: a feed URL that is fine and an
    [items_cap] that is no integer.  The handler answers 400 as plain
    text, downloads the feed all the same, and appends the serialized feed
    to the error message: the [Content-Type] set by the [switch] comes
    after the header was sent.  (C7; the missing [return] is that of C1.) *)
Theorem C7_content_type_after_rejected_items_cap :
  let req := Example.request "/example.com/rss" [("items_cap", ["abc"])] in
  let w := fst (processRequest Example.world http.newResponseWriter req 10) in
  reachesFeed Example.world req Example.from (Example.feed "rss") /\
  feeds_ToRss Example.world (assembled Example.world (Example.feed "rss") Example.from 0) =
    Ok "<rss>Example (repacked by go-morss)||already there||||</rss>" /\
  http.body w =
    "Can't parse `from_time` query param value" +:+ fmt.newline +:+
    "<rss>Example (repacked by go-morss)||already there||||</rss>" +:+ fmt.newline /\
  http.statusCode w = http.StatusBadRequest /\
  http.contentType w = ["text/plain; charset=utf-8"] /\
  http.Header w !! "Content-Type" = Some ["application/xml"].
Proof. repeat split; reflexivity. Qed.




(** ** Malformed query parameters *)

Lemma WriteHeader_sent w code c :
  http.status w = Some c -> http.WriteHeader code w = w.
Proof. unfold http.WriteHeader. by intros ->. Qed.

Lemma Write_status w data c :
  http.status w = Some c -> http.status (http.Write data w) = Some c.
Proof. intros H. unfold http.Write. by rewrite (WriteHeader_sent _ _ _ H). Qed.

Lemma Error_status w msg code c :
  http.status w = Some c -> http.status (http.Error w msg code) = Some c.
Proof.
  intros H. unfold http.Error. apply Write_status.
  by rewrite (WriteHeader_sent _ _ c).
Qed.

Lemma Error_status_fresh w msg code :
  http.status w = None -> http.status (http.Error w msg code) = Some code.
Proof.
  intros H. unfold http.Error, http.Write, http.WriteHeader. simpl. by rewrite H.
Qed.

(** Once the status line is sent, the [switch] does not change it. *)
Lemma respond_status W w feedNew feedType c :
  http.status w = Some c -> http.status (respond W w feedNew feedType) = Some c.
Proof.
  intros H. unfold respond, fmt.Fprintln, json.Encode.
  repeat match goal with
         | |- context [if ?b then _ else _] => destruct b
         | |- context [match ?x with Ok _ => _ | Err _ => _ end] => destruct x
         end;
    repeat first [done | apply Error_status | apply Write_status
                 | rewrite (WriteHeader_sent _ _ c) by done].
Qed.

(** The sibling branch: a [from_time] that does not parse is answered 400
    and nothing is downloaded. *)
Lemma from_time_rejected_returns W w req itemsCapByServer e :
  String.eqb (strings.TrimPrefix (Path req) "/") "" = false ->
  String.eqb (strings.TrimPrefix (Path req) "/") "favicon.ico" = false ->
  isValidUrl W (feedURLOf req) = true ->
  readFromTime W req = Err e ->
  processRequest W w req itemsCapByServer =
  (http.Error w (cantParse fromTimeParamName) http.StatusBadRequest, []).
Proof.
  intros H1 H2 H3 H4. unfold processRequest, feedURLOf in *.
  by rewrite H1, H2, H3, H4.
Qed.

(** This branch: an [items_cap] that [strconv.Atoi] rejects is answered
    400, and the feed is downloaded all the same. *)
Lemma items_cap_rejected_goes_on W req itemsCapByServer fromTime :
  String.eqb (strings.TrimPrefix (Path req) "/") "" = false ->
  String.eqb (strings.TrimPrefix (Path req) "/") "favicon.ico" = false ->
  isValidUrl W (feedURLOf req) = true ->
  readFromTime W req = Ok fromTime ->
  itemsCapAccepted W req = false ->
  let r := processRequest W http.newResponseWriter req itemsCapByServer in
  http.status (fst r) = Some http.StatusBadRequest /\
  FeedFetch (feedURLOf req) (getRandUserAgent W) ∈ snd r.
Proof.
  intros H1 H2 H3 H4 Hcap.
  destruct (readItemsCap_rejected W http.newResponseWriter req itemsCapByServer Hcap)
    as (value & rest & _ & Hr).
  unfold processRequest, feedURLOf in *.
  rewrite H1, H2, H3, H4, Hr. simpl. unfold fetchFeed.
  destruct (gofeed_ParseURL W _ _) as [feed|e]; simpl.
  - split; [|apply list_elem_of_here].
    apply respond_status. by apply Error_status_fresh.
  - split; [done|apply list_elem_of_here].
Qed.

(** The request [/example.com/rss?items_cap=abc]: the handler answers 400
    and then downloads the feed; with [from_time=abc] instead it answers
    400 and downloads nothing.  (C1) *)
Theorem C1_rejected_items_cap_still_fetches :
  let cap := processRequest Example.world http.newResponseWriter
               (Example.request "/example.com/rss" [("items_cap", ["abc"])]) 10 in
  let from := processRequest Example.world http.newResponseWriter
               (Example.request "/example.com/rss" [("from_time", ["abc"])]) 10 in
  itemsCapAccepted Example.world
    (Example.request "/example.com/rss" [("items_cap", ["abc"])]) = false /\
  http.status (fst cap) = Some http.StatusBadRequest /\
  snd cap = [FeedFetch "https://example.com/rss" (getRandUserAgent Example.world)] /\
  http.body (fst cap) =
    "Can't parse `from_time` query param value" +:+ fmt.newline +:+
    "<rss>Example (repacked by go-morss)||already there||||</rss>" +:+ fmt.newline /\
  http.status (fst from) = Some http.StatusBadRequest /\
  snd from = [] /\
  http.body (fst from) = "Can't parse `from_time` query param value" +:+ fmt.newline.
Proof. repeat split; reflexivity. Qed.

(** * Further properties of the program *)

(** ** [FnMap] *)

Lemma FnMapLoop_foldl {I O : Type} (zero : O) (fn : I -> O) (rest : list I) :
  forall seen : list I,
  fst (foldl (fun st v => (<[snd st := fn v]> (fst st), S (snd st)))
             (((fn <$> seen) ++ replicate (length rest) zero)%list, length seen) rest)
  = fn <$> (seen ++ rest)%list.
Proof.
  induction rest as [|v rest IH]; intros seen.
  - simpl. by rewrite !app_nil_r.
  - cbn [foldl fst snd length].
    rewrite insert_app_r_alt by (rewrite length_fmap; lia).
    rewrite length_fmap, Nat.sub_diag. cbn [replicate insert list_insert].
    specialize (IH (seen ++ [v])%list).
    rewrite fmap_app, length_app, <- app_assoc in IH. cbn [fmap list_fmap length] in IH.
    rewrite Nat.add_1_r in IH. simpl in IH. rewrite IH. by rewrite <- app_assoc.
Qed.

(** [FnMap]: a nil slice gives nil, and only a nil slice does; a slice
    that is not nil, also an empty one, gives a slice that is not nil, of
    the same length, which holds at every index [fn] of the input's element
    at that index: the loop overwrites every slot of the slice it made, so
    that nothing of the zero value is left.  The elements are those of the
    [FnMap] the handler is modelled with. *)
Theorem FnMap_pointwise {I O : Type} (zero : O) (s : option (list I)) (fn : I -> O) :
  (FnMapSlice zero s fn = None <-> s = None) /\
  (forall l, s = Some l ->
     exists out, FnMapSlice zero s fn = Some out /\
       length out = length l /\
       forall i, out !! i = fn <$> (l !! i)) /\
  sliceElements (FnMapSlice zero s fn) = FnMap (sliceElements s) fn /\
  FnMapLoop zero (sliceElements s) fn = FnMap (sliceElements s) fn.
Proof.
  assert (forall l : list I,
    fst (foldl (fun st v => (<[snd st := fn v]> (fst st), S (snd st)))
               (replicate (length l) zero, 0%nat) l) = fn <$> l) as Hloop.
  { intros l. exact (FnMapLoop_foldl zero fn l []). }
  split; [|split; [|split]].
  - destruct s; simpl; split; done.
  - intros l ->. eexists. split; [reflexivity|]. rewrite Hloop. split.
    + apply length_fmap.
    + intros i. apply list_lookup_fmap.
  - rewrite FnMap_map. destruct s as [l|]; simpl; [apply Hloop|done].
  - rewrite FnMap_map. unfold FnMapLoop.
    destruct (sliceElements s) as [|v l] eqn:E; [done|]. apply Hloop.
Qed.

(** ** [fetchFeedItems]: what it leaves alone *)

Lemma setItems_same feed : gofeed.Feed.setItems (gofeed.Feed.Items feed) feed = feed.
Proof. by destruct feed. Qed.

Lemma joined_nil W items : joined W items [] = items.
Proof. done. Qed.

(** The item a goroutine is launched with is the one at its index, with
    empty content. *)
Lemma launched_item from itemsCap items j item :
  (j, item) ∈ launched (scanLoop from itemsCap items 0 0) ->
  items !! j = Some item /\ gofeed.Item.Content item = "".
Proof.
  intros Hin. apply scanLoop_launched_lookup in Hin as (_ & Hl & He).
  rewrite Nat.sub_0_r in Hl. split; [done|]. by apply (eligible_content from).
Qed.

(** [fetchFeedItems] returns the feed it was given but for the content of
    items: the fields of the feed are the same, the items are as many and
    in the same order, and each item is either untouched or had empty
    content and now has the content of the article downloaded from its
    link, every other field being the same. *)
Theorem fetchFeedItems_frame W feed from itemsCap :
  let out := fst (fetchFeedItems W feed from itemsCap) in
  gofeed.Feed.setItems (gofeed.Feed.Items feed) out = feed /\
  length (gofeed.Feed.Items out) = length (gofeed.Feed.Items feed) /\
  (forall j item, gofeed.Feed.Items feed !! j = Some item ->
     gofeed.Feed.Items out !! j = Some item \/
     (gofeed.Item.Content item = "" /\
      exists article,
        readability_FromURL W (gofeed.Item.Link item) defaultHTTPTimeout = Ok article /\
        gofeed.Feed.Items out !! j =
          Some (gofeed.Item.setContent (readability.Content article) item))).
Proof.
  intros out. split; [by destruct feed|]. split.
  { unfold out. by rewrite fetchFeedItems_Items, joined_length. }
  intros j item Hj. unfold out. rewrite fetchFeedItems_Items, joined_lookup, Hj.
  case_bool_decide as Hin; [|by left].
  apply list_elem_of_fmap in Hin as ([j' item'] & Hjj & Hin). simpl in Hjj. subst j'.
  apply launched_item in Hin as [Hl Hc].
  assert (item' = item) as -> by congruence.
  simpl. unfold enrich.
  destruct (readability_FromURL W _ _) as [article|e] eqn:Hf; [right|by left].
  split; [done|]. by exists article.
Qed.

(** With a cap of zero or less, or when no item is eligible, the loop
    launches nothing: [fetchFeedItems] returns the feed as it is and no
    page is downloaded. *)
Theorem fetchFeedItems_nothing_to_do W feed from itemsCap :
  itemsCap <= 0 \/
  Forall (fun item => eligible from item = false) (gofeed.Feed.Items feed) ->
  fetchFeedItems W feed from itemsCap = (feed, []).
Proof.
  intros H. unfold fetchFeedItems.
  assert (launched (scanLoop from itemsCap (gofeed.Feed.Items feed) 0 0) = []) as ->.
  { rewrite scanLoop_selectSpec. unfold selectSpec. destruct H as [H|H].
    - by replace (Z.to_nat itemsCap) with 0%nat by lia.
    - assert (forall i, List.filter (fun g => eligible from (snd g))
                (enumFrom i (gofeed.Feed.Items feed)) = []) as ->; [|by rewrite take_nil].
      induction H as [|item rest He _ IH]; intros i; [done|].
      simpl. rewrite He. apply IH. }
  simpl. by rewrite setItems_same.
Qed.

(** A cap of zero on the example feed, whose items are partly eligible. *)
Lemma fetchFeedItems_nothing_to_do_witness :
  fetchFeedItems Example.world (Example.feed "rss") Example.from 0 =
  (Example.feed "rss", []).
Proof. apply fetchFeedItems_nothing_to_do. left. lia. Defined.

(** When the download fails for every item of the feed, [fetchFeedItems]
    returns the feed as it is, whatever was selected. *)
Theorem fetchFeedItems_all_fail W feed from itemsCap :
  Forall (fun item => exists e,
            readability_FromURL W (gofeed.Item.Link item) defaultHTTPTimeout = Err e)
         (gofeed.Feed.Items feed) ->
  fst (fetchFeedItems W feed from itemsCap) = feed.
Proof.
  intros Hall. unfold fetchFeedItems. cbn [fst].
  set (gs := launched _).
  assert (joined W (gofeed.Feed.Items feed) gs = gofeed.Feed.Items feed) as ->;
    [|apply setItems_same].
  apply list_eq. intros j. rewrite joined_lookup.
  destruct (gofeed.Feed.Items feed !! j) as [item|] eqn:Hj; [|by case_bool_decide].
  rewrite Forall_lookup in Hall. destruct (Hall _ _ Hj) as [e He].
  case_bool_decide; simpl; [|done]. by rewrite (enrich_Err _ _ _ He).
Qed.

(** The feed whose one item is selected and cannot be downloaded. *)
Lemma fetchFeedItems_all_fail_witness :
  launched (scanLoop Example.from 10 (gofeed.Feed.Items Broken.feed) 0 0) <> [] /\
  fst (fetchFeedItems Example.world Broken.feed Example.from 10) = Broken.feed.
Proof.
  split; [discriminate|].
  apply fetchFeedItems_all_fail. repeat constructor. by exists "timeout".
Defined.

(** ** [fetchFeedItems]: the page downloads *)

(** The page downloads of [fetchFeedItems] are, in whatever order the
    goroutines make them, one for each selected item, each of the link of
    its item with the timeout of 30 seconds; they are at most as many as
    the cap and as the items, and as many as the final [count] the
    function logs. *)
Theorem fetchFeedItems_downloads W feed from itemsCap :
  let items := gofeed.Feed.Items feed in
  let evs := snd (fetchFeedItems W feed from itemsCap) in
  evs ≡ₚ (fun g => ItemFetch (gofeed.Item.Link (snd g)) (30 * 1000000000))
           <$> selectSpec from itemsCap items /\
  (length evs <= Z.to_nat itemsCap)%nat /\
  (length evs <= length items)%nat /\
  finalCount (scanLoop from itemsCap items 0 0) = Z.of_nat (length evs).
Proof.
  intros items evs.
  assert (evs = (fun g => ItemFetch (gofeed.Item.Link (snd g)) (30 * 1000000000))
                  <$> selectSpec from itemsCap items) as Hevs.
  { unfold evs, fetchFeedItems, itemFetches. cbn [snd].
    rewrite scanLoop_selectSpec. fold items.
    induction (selectSpec from itemsCap items) as [|g gs IH]; [done|].
    simpl. by rewrite IH. }
  assert (length evs = length (selectSpec from itemsCap items)) as Hlen
    by (by rewrite Hevs, length_fmap).
  split; [by rewrite Hevs|]. rewrite Hlen. split; [|split].
  - unfold selectSpec. rewrite length_take. lia.
  - rewrite <- (length_fmap snd), <- scanLoop_selectSpec, scanLoop_launched_items.
    rewrite length_take. pose proof (List.filter_length_le (eligible from) items). lia.
  - rewrite scanLoop_finalCount, scanLoop_selectSpec. lia.
Qed.

(** Raising the cap never deselects an item: what is selected under a cap
    is the beginning of what is selected under a larger one. *)
Theorem selection_monotone_in_cap from cap1 cap2 items :
  cap1 <= cap2 ->
  launched (scanLoop from cap1 items 0 0) `prefix_of`
  launched (scanLoop from cap2 items 0 0).
Proof.
  intros Hle. rewrite !scanLoop_selectSpec. unfold selectSpec.
  set (l := List.filter _ _).
  replace (Z.to_nat cap1) with (min (Z.to_nat cap1) (Z.to_nat cap2)) by lia.
  rewrite <- take_take. apply prefix_take.
Qed.

(** Caps of two and of ten on the example feed. *)
Lemma selection_monotone_in_cap_witness :
  launched (scanLoop Example.from 2 Example.items 0 0) `prefix_of`
  launched (scanLoop Example.from 10 Example.items 0 0).
Proof. apply selection_monotone_in_cap. lia. Defined.

(** ** [processRequest]: the answers that need no feed *)

Lemma staticRoute_false req :
  staticRoute req = false ->
  String.eqb (strings.TrimPrefix (Path req) "/") "" = false /\
  String.eqb (strings.TrimPrefix (Path req) "/") "favicon.ico" = false.
Proof. unfold staticRoute. by intros [-> ->]%orb_false_iff. Qed.

(** The two paths the handler answers itself: the root gives the badge
    page as HTML with status 200, the favicon gives 404 as plain text;
    neither reads the query, the server's cap or the world, and neither
    makes a network request. *)
Theorem static_routes W req itemsCapByServer :
  let r := processRequest W http.newResponseWriter req itemsCapByServer in
  (Path req = "/" \/ Path req = "" ->
   snd r = [] /\
   http.status (fst r) = Some 200 /\
   http.contentType (fst r) = ["text/html; charset=utf-8"] /\
   http.body (fst r) = badgePage) /\
  (Path req = "/favicon.ico" \/ Path req = "favicon.ico" ->
   snd r = [] /\
   http.status (fst r) = Some 404 /\
   http.contentType (fst r) = ["text/plain; charset=utf-8"] /\
   http.body (fst r) = "Not found" +:+ fmt.newline).
Proof.
  intros r. unfold r, processRequest.
  split; intros [->| ->]; repeat split; reflexivity.
Qed.

(** A path that does not give a valid URL once [https://] is put before it
    is answered 400 with a plain-text message, and nothing is downloaded;
    the query is not looked at. *)
Theorem invalid_url_rejected W req itemsCapByServer :
  staticRoute req = false ->
  isValidUrl W (feedURLOf req) = false ->
  let r := processRequest W http.newResponseWriter req itemsCapByServer in
  snd r = [] /\
  http.status (fst r) = Some 400 /\
  http.contentType (fst r) = ["text/plain; charset=utf-8"] /\
  http.body (fst r) = "No valid RSS URL found in the path" +:+ fmt.newline.
Proof.
  intros [H1 H2]%staticRoute_false H3 r. unfold r, processRequest, feedURLOf in *.
  rewrite H1, H2, H3. repeat split; reflexivity.
Qed.

(** The path [//feed] gives [https:///feed], a URL without host. *)
Lemma invalid_url_rejected_witness :
  http.status (fst (processRequest Example.world http.newResponseWriter
                      (Example.request "//feed" [("items_cap", ["abc"])]) 10)) = Some 400.
Proof.
  apply (invalid_url_rejected Example.world
           (Example.request "//feed" [("items_cap", ["abc"])]) 10); reflexivity.
Defined.

(** A [from_time] whose first value does not parse in the layout
    [2006-01-02T15:04:05Z] is answered 400 with a plain-text message and
    nothing is downloaded, whatever [items_cap] is. *)
Theorem from_time_rejected W req itemsCapByServer value rest e :
  staticRoute req = false ->
  isValidUrl W (feedURLOf req) = true ->
  queryValues req "from_time" = value :: rest ->
  time_Parse W "2006-01-02T15:04:05Z" value = Err e ->
  let r := processRequest W http.newResponseWriter req itemsCapByServer in
  snd r = [] /\
  http.status (fst r) = Some 400 /\
  http.contentType (fst r) = ["text/plain; charset=utf-8"] /\
  http.body (fst r) = "Can't parse `from_time` query param value" +:+ fmt.newline.
Proof.
  intros [H1 H2]%staticRoute_false H3 Hq He r. unfold r.
  rewrite (from_time_rejected_returns W _ req itemsCapByServer e H1 H2 H3).
  - repeat split; reflexivity.
  - unfold readFromTime, fromTimeParamName, parseTimeParam. by rewrite Hq.
Qed.

(** A date without time of day, with a second value that would parse and
    an [items_cap] that is no integer. *)
Lemma from_time_rejected_witness :
  snd (processRequest Example.world http.newResponseWriter
         (Example.request "/example.com/rss"
            [("from_time", ["2023-01-01"; "2023-01-01T00:00:00Z"]);
             ("items_cap", ["abc"])]) 10) = [].
Proof.
  eapply (from_time_rejected Example.world _ 10 "2023-01-01"
            ["2023-01-01T00:00:00Z"] "cannot parse"); reflexivity.
Defined.

(** When the download or the parse of the feed fails, the handler returns
    without writing: the response is what it was after the query was read,
    which is the empty 200 when [items_cap] was absent or accepted.  The
    one network request made is that of the feed. *)
Theorem feed_fetch_failure W req itemsCapByServer fromTime e :
  staticRoute req = false ->
  isValidUrl W (feedURLOf req) = true ->
  readFromTime W req = Ok fromTime ->
  gofeed_ParseURL W (getRandUserAgent W) (feedURLOf req) = Err e ->
  let r := processRequest W http.newResponseWriter req itemsCapByServer in
  snd r = [FeedFetch (feedURLOf req) (getRandUserAgent W)] /\
  fst r = snd (readItemsCap W http.newResponseWriter req itemsCapByServer) /\
  (itemsCapAccepted W req = true ->
   empty200 (fst r) /\ http.statusCode (fst r) = 200 /\ http.body (fst r) = "").
Proof.
  intros [H1 H2]%staticRoute_false H3 H4 H5 r.
  assert (r = (snd (readItemsCap W http.newResponseWriter req itemsCapByServer),
               [FeedFetch (feedURLOf req) (getRandUserAgent W)])) as Hr.
  { unfold r, processRequest, feedURLOf in *. rewrite H1, H2, H3, H4. simpl.
    destruct (readItemsCap W http.newResponseWriter req itemsCapByServer) as [c w'].
    unfold fetchFeed. by rewrite H5. }
  rewrite Hr. split; [done|]. split; [done|]. intros Hcap. cbn [fst].
  by rewrite (readItemsCap_accepted _ _ _ _ Hcap).
Qed.

(** A feed URL the example world does not know. *)
Lemma feed_fetch_failure_witness :
  empty200 (fst (processRequest Example.world http.newResponseWriter
                   (Example.request "/example.com/missing" []) 10)).
Proof.
  destruct (feed_fetch_failure Example.world
              (Example.request "/example.com/missing" []) 10 Example.from "not found")
    as (_ & _ & H); [reflexivity..|].
  destruct (H eq_refl) as [He _]. exact He.
Defined.

(** ** [processRequest]: the answers of the [switch] *)

(** When the serializer of the feed's tag fails, a request whose
    [items_cap] was absent or accepted is answered 500 with the plain-text
    message [Server error], and nothing of the feed is in the body. *)
Theorem serialization_failure W req itemsCapByServer fromTime feed ser e :
  reachesFeed W req fromTime feed ->
  itemsCapAccepted W req = true ->
  serializerOf W (gofeed.Feed.FeedType feed) = Some ser ->
  ser (assembled W feed fromTime
         (fst (readItemsCap W http.newResponseWriter req itemsCapByServer))) = Err e ->
  let w := fst (processRequest W http.newResponseWriter req itemsCapByServer) in
  http.status w = Some 500 /\
  http.contentType w = ["text/plain; charset=utf-8"] /\
  http.body w = "Server error" +:+ fmt.newline.
Proof.
  intros Hreq Hcap Hser He w. unfold w.
  rewrite (processRequest_reachesFeed _ _ _ _ _ _ Hreq). cbn [fst].
  rewrite (readItemsCap_accepted _ _ _ _ Hcap).
  unfold serializerOf, respond in *.
  destruct (String.eqb _ "rss"); [injection Hser as <-; by rewrite He|].
  destruct (String.eqb _ "atom"); [injection Hser as <-; by rewrite He|].
  destruct (String.eqb _ "json"); [injection Hser as <-; by rewrite He|done].
Qed.

(** A world whose serializers fail. *)
Lemma serialization_failure_witness :
  http.status (fst (processRequest Broken.serializers http.newResponseWriter
                      (Example.request "/example.com/atom" []) 10)) = Some 500.
Proof.
  assert (reachesFeed Broken.serializers (Example.request "/example.com/atom" [])
            Example.from (Example.feed "atom")) as Hreq
    by (repeat split; reflexivity).
  apply (serialization_failure Broken.serializers _ 10 Example.from
           (Example.feed "atom") (fun _ => Err "cannot serialize") "cannot serialize"
           Hreq eq_refl eq_refl eq_refl).
Defined.

(** A JSON feed of the example world, with the body the client receives. *)
Lemma format_preserved_when_items_cap_accepted_witness :
  let w := fst (processRequest Example.world http.newResponseWriter
                  (Example.request "/example.com/json" [("items_cap", ["1"])]) 10) in
  http.status w = Some 200 /\
  http.contentType w = ["application/json"].
Proof.
  assert (reachesFeed Example.world
            (Example.request "/example.com/json" [("items_cap", ["1"])])
            Example.from (Example.feed "json")) as Hreq
    by (repeat split; reflexivity).
  destruct (format_preserved_when_items_cap_accepted Example.world _ 10 Example.from
              (Example.feed "json") (Example.render "json") _ Hreq eq_refl eq_refl eq_refl)
    as (Hs & Hc & _).
  - intros _. eexists. reflexivity.
  - split; [exact Hs|exact Hc].
Defined.

Lemma Write_sent w data c :
  http.status w = Some c -> http.sent (http.Write data w) = http.sent w.
Proof. intros H. unfold http.Write. by rewrite (WriteHeader_sent _ _ _ H). Qed.

Lemma Error_sent w msg code c :
  http.status w = Some c -> http.sent (http.Error w msg code) = http.sent w.
Proof.
  intros H. unfold http.Error. erewrite Write_sent.
  - by rewrite (WriteHeader_sent _ _ c).
  - by rewrite (WriteHeader_sent _ _ c).
Qed.

(** Once the header is sent, the [switch] does not change what was sent. *)
Lemma respond_sent W w feedNew feedType c :
  http.status w = Some c -> http.sent (respond W w feedNew feedType) = http.sent w.
Proof.
  intros H. unfold respond, fmt.Fprintln, json.Encode.
  repeat match goal with
         | |- context [if ?b then _ else _] => destruct b
         | |- context [match ?x with Ok _ => _ | Err _ => _ end] => destruct x
         end;
    rewrite ?(WriteHeader_sent (http.Header_Set _ _ w) _ c) by done;
    first [done | by erewrite Error_sent | by erewrite Write_sent].
Qed.

(** What the [switch] makes of a response nothing was written to. *)
Lemma respond_fresh W feedNew feedType :
  let w := respond W http.newResponseWriter feedNew feedType in
  w = http.newResponseWriter \/
  (http.status w = Some 200 /\ http.contentType w = [contentTypeOf feedType]) \/
  (http.status w = Some 500 /\ http.contentType w = ["text/plain; charset=utf-8"] /\
   http.sent w !! "X-Content-Type-Options" = Some ["nosniff"]).
Proof.
  unfold respond, contentTypeOf, json.Encode.
  destruct (String.eqb feedType "rss") eqn:Erss.
  { apply String.eqb_eq in Erss. subst. simpl.
    destruct (feeds_ToRss W feedNew); [right; left|right; right]; done. }
  destruct (String.eqb feedType "atom") eqn:Eatom.
  { apply String.eqb_eq in Eatom. subst. simpl.
    destruct (feeds_ToAtom W feedNew); [right; left|right; right]; done. }
  destruct (String.eqb feedType "json"); [|by left].
  destruct (feeds_ToJSON W feedNew) as [body|]; [|right; right; done].
  destruct (json_Marshal W body); right; left; done.
Qed.

Lemma statusCode_sent w c : http.status w = Some c -> http.statusCode w = c.
Proof. unfold http.statusCode. by intros ->. Qed.

Lemma wellFormedAnswer_fresh : wellFormedAnswer http.newResponseWriter.
Proof.
  split; [by left|].
  replace (http.statusCode http.newResponseWriter) with 200 by reflexivity. lia.
Qed.

(** A response already answered 400 by [http.Error]. *)
Lemma wellFormedAnswer_rejected w msg :
  http.status w = Some 400 ->
  http.sent w = http.sent (http.Error http.newResponseWriter msg 400) ->
  wellFormedAnswer w.
Proof.
  intros Hs Hsent. unfold wellFormedAnswer, http.statusCode, http.contentType,
    http.finish, http.WriteHeader.
  rewrite Hs, Hsent. simpl. by split; [right; left|].
Qed.

Lemma respond_wellFormedAnswer W w feedNew feedType :
  w = http.newResponseWriter \/
  (exists msg, w = http.Error http.newResponseWriter msg 400) ->
  wellFormedAnswer (respond W w feedNew feedType).
Proof.
  intros [->|[msg ->]].
  - destruct (respond_fresh W feedNew feedType) as [->|[[Hs Hc]|(Hs & Hc & Hn)]].
    + apply wellFormedAnswer_fresh.
    + split; rewrite (statusCode_sent _ _ Hs); [by left|lia].
    + split; rewrite (statusCode_sent _ _ Hs); [by right; right; right|done].
  - apply (wellFormedAnswer_rejected _ msg).
    + by apply respond_status.
    + by erewrite respond_sent.
Qed.

(** The handler answers 200, 400, 404 or 500 and nothing else; an answer
    of 400 or more is plain text with [X-Content-Type-Options: nosniff],
    also when a feed was appended to it. *)
Theorem response_statuses W req itemsCapByServer :
  wellFormedAnswer (fst (processRequest W http.newResponseWriter req itemsCapByServer)).
Proof.
  unfold processRequest.
  destruct (String.eqb _ ""); [by split; [left|]|].
  destruct (String.eqb _ "favicon.ico"); [by split; [right; right; left|]|].
  destruct (isValidUrl W _); simpl; [|by split; [right; left|]].
  destruct (readFromTime W req); [|by split; [right; left|]].
  assert (snd (readItemsCap W http.newResponseWriter req itemsCapByServer) =
            http.newResponseWriter \/
          exists msg, snd (readItemsCap W http.newResponseWriter req itemsCapByServer) =
            http.Error http.newResponseWriter msg 400) as Hw.
  { unfold readItemsCap. destruct (queryValues req itemsCapParamName); [by left|].
    destruct (strconv_Atoi W _) as [c [e|]]; [right; by eexists|by left]. }
  destruct (readItemsCap W http.newResponseWriter req itemsCapByServer) as [c w'].
  unfold fetchFeed. destruct (gofeed_ParseURL W _ _) as [feed|e]; simpl in *.
  - by apply respond_wellFormedAnswer.
  - destruct Hw as [->|[msg ->]]; [apply wellFormedAnswer_fresh|].
    by apply (wellFormedAnswer_rejected _ msg).
Qed.

(** ** [processRequest]: the network requests and the query *)

Lemma itemFetches_length gs : length (itemFetches gs) = length gs.
Proof. unfold itemFetches. by rewrite length_map. Qed.

Lemma itemFetches_isItemFetch gs : Forall (fun ev => isItemFetch ev = true) (itemFetches gs).
Proof. induction gs as [|g gs IH]; constructor; done. Qed.

Lemma launched_length_cap from itemsCap items :
  (length (launched (scanLoop from itemsCap items 0 0)) <= Z.to_nat itemsCap)%nat.
Proof. rewrite scanLoop_selectSpec. unfold selectSpec. rewrite length_take. lia. Qed.

(** The handler makes no network request unless the path is not a static
    one, the URL is valid and [from_time] is absent or parses; then it
    downloads the feed once, first, and after it only pages of items, at
    most as many as the cap it goes on with. *)
Theorem network_requests W w req itemsCapByServer :
  let evs := snd (processRequest W w req itemsCapByServer) in
  evs = [] \/
  (staticRoute req = false /\
   isValidUrl W (feedURLOf req) = true /\
   (exists fromTime, readFromTime W req = Ok fromTime) /\
   exists pages,
     evs = FeedFetch (feedURLOf req) (getRandUserAgent W) :: pages /\
     Forall (fun ev => isItemFetch ev = true) pages /\
     (length pages <= Z.to_nat (fst (readItemsCap W w req itemsCapByServer)))%nat).
Proof.
  unfold processRequest, staticRoute, feedURLOf.
  destruct (String.eqb _ ""); [by left|].
  destruct (String.eqb _ "favicon.ico"); [by left|].
  destruct (isValidUrl W _); simpl; [|by left].
  destruct (readFromTime W req) as [fromTime|]; [|by left].
  right. repeat split; [by eexists|].
  destruct (readItemsCap W w req itemsCapByServer) as [c w'].
  unfold fetchFeed, fetchFeedItems.
  destruct (gofeed_ParseURL W _ _) as [feed|e]; simpl.
  - eexists. split; [done|]. split; [apply itemFetches_isItemFetch|].
    rewrite itemFetches_length. apply launched_length_cap.
  - exists []. split; [done|]. split; [constructor|simpl; lia].
Qed.


(** Without [from_time] the window starts 30 days (2 592 000 seconds)
    before the time of the request: an item whose timestamp is older is in
    the feed handed to the serializers as the parser returned it. *)
Theorem default_window W req itemsCapByServer fromTime feed :
  reachesFeed W req fromTime feed ->
  queryValues req "from_time" = [] ->
  fromTime = time_Now W - 2592000 * 1000000000 /\
  forall j item t,
    gofeed.Feed.Items feed !! j = Some item ->
    itemTime item = Some t ->
    t < time_Now W - 2592000 * 1000000000 ->
    feeds.Feed.Items
      (assembled W feed fromTime
         (fst (readItemsCap W http.newResponseWriter req itemsCapByServer))) !! j
    = Some (newItem item).
Proof.
  intros (_ & _ & _ & Hfrom & _) Hq.
  unfold readFromTime, fromTimeParamName in Hfrom. rewrite Hq in Hfrom.
  injection Hfrom as <-.
  split; [unfold time.Add, defaultFromDaysAgo, time.Hour, time.Second; lia|].
  intros j item t Hj Ht Hlt.
  unfold assembled. rewrite newFeed_Items, list_lookup_fmap, fetchFeedItems_Items.
  rewrite joined_lookup_other; [by rewrite Hj|].
  intros ([j' item'] & Hjj & Hin)%list_elem_of_fmap. simpl in Hjj. subst j'.
  apply scanLoop_launched_lookup in Hin as (_ & Hl & He).
  rewrite Nat.sub_0_r in Hl. assert (item' = item) as -> by congruence.
  unfold eligible in He. rewrite Ht in He.
  apply andb_true_iff in He as [_ He%Z.leb_le].
  unfold time.Add, defaultFromDaysAgo, time.Hour, time.Second in He. lia.
Qed.

(** The fourth item of the example feed is a second older than 30 days. *)
Lemma default_window_witness :
  feeds.Item.Content <$>
    (feeds.Feed.Items (assembled Example.world (Example.feed "rss") Example.from 10)
       !! 3%nat) = Some "".
Proof.
  assert (reachesFeed Example.world (Example.request "/example.com/rss" [])
            Example.from (Example.feed "rss")) as Hreq
    by (repeat split; reflexivity).
  destruct (default_window Example.world _ 10 Example.from (Example.feed "rss")
              Hreq eq_refl) as [_ H].
  change (assembled Example.world (Example.feed "rss") Example.from 10)
    with (assembled Example.world (Example.feed "rss") Example.from
            (fst (readItemsCap Example.world http.newResponseWriter
                    (Example.request "/example.com/rss" []) 10))).
  rewrite (H 3%nat (Example.item "d" "" None (Some (Example.from - 1)))
             (Example.from - 1)); [reflexivity..|].
  unfold Example.from, time.Add, defaultFromDaysAgo, time.Hour, time.Second,
    Example.world, time_Now. lia.
Defined.

(** ** The run of [fetchFeedItems]: bounds *)





Lemma nsteps_fuel W from itemsCap n m m' :
  nsteps (step W from itemsCap) n m m' -> (fuel m' + n <= fuel m)%nat.
Proof.
  induction 1 as [|n m1 m2 m3 Hstep _ IH]; [lia|].
  apply step_fuel in Hstep. lia.
Qed.

(** Every run of [fetchFeedItems] is finite: from the call, no sequence of
    steps of the loop and the goroutines is longer than four times the
    number of items plus two; and a state from which no step is possible
    is one in which the function has returned, so that no run blocks in
    [wg.Wait()] for ever. *)
Theorem runs_are_bounded W feed from itemsCap n m :
  nsteps (step W from itemsCap) n (start (gofeed.Feed.Items feed)) m ->
  (n <= 4 * length (gofeed.Feed.Items feed) + 2)%nat /\
  ((forall m', ~ step W from itemsCap m m') -> mainPc m = Returned).
Proof.
  intros Hn. split.
  - apply nsteps_fuel in Hn. unfold fuel at 2, mainFuel in Hn. simpl in Hn. lia.
  - intros Hstuck.
    assert (Inv W from itemsCap (gofeed.Feed.Items feed) m) as HI.
    { apply Inv_reachable. unfold reachable. by eapply rtc_nsteps_2. }
    destruct (mainPc m) eqn:Hpc; [| |done].
    + destruct (step_exists _ _ _ _ _ HI) as [m' Hm']; [by rewrite Hpc|].
      by destruct (Hstuck m').
    + destruct (step_exists _ _ _ _ _ HI) as [m' Hm']; [by rewrite Hpc|].
      by destruct (Hstuck m').
Qed.

(** The run of the short feed, counted: seven steps. *)
Lemma Run_final_nsteps :
  nsteps (step Example.world Example.from 10) 7
    (start (gofeed.Feed.Items Run.feed)) Run.final.
Proof.
  eapply nsteps_l; [by eapply (step_go _ _ _ _ 0%nat 0 Run.a)|]. simpl.
  eapply nsteps_l; [by eapply (step_continue _ _ _ _ 1%nat 1 Run.b)|]. simpl.
  eapply nsteps_l; [by eapply (step_end _ _ _ _ 2%nat 1); simpl; [|lia]|]. simpl.
  eapply nsteps_l; [by eapply (step_fetch_ok _ _ _ _ 0%nat 0%nat Run.a)|]. simpl.
  eapply nsteps_l; [by eapply (step_store _ _ _ _ 0%nat 0%nat Run.a)|]. simpl.
  eapply nsteps_l; [by eapply (step_done _ _ _ _ 0%nat 0%nat)|]. simpl.
  eapply nsteps_l; [by eapply step_wait|]. simpl.
  apply nsteps_O.
Qed.

(** Seven steps for two items, under the bound of ten. *)
Lemma runs_are_bounded_witness : (7 <= 4 * 2 + 2)%nat.
Proof.
  exact (proj1 (runs_are_bounded Example.world Run.feed Example.from 10 7 Run.final
                  Run_final_nsteps)).
Defined.

(** At every moment of a run, also while goroutines are at work, the
    items are as many as were passed in and each is either as it was
    passed in or as its goroutine leaves it for good: no item is seen half
    written or written by the goroutine of another. *)
Theorem items_during_run W feed from itemsCap m :
  reachable W from itemsCap (gofeed.Feed.Items feed) m ->
  length (store m) = length (gofeed.Feed.Items feed) /\
  forall j item, gofeed.Feed.Items feed !! j = Some item ->
    store m !! j = Some item \/
    (j ∈ (units m).*1 /\ store m !! j = Some (enrich W item)).
Proof.
  intros HI%Inv_reachable. split; [by eapply Inv_length|].
  intros j item Hj. destruct HI as [_ _ Hunit Hrest _].
  destruct (decide (j ∈ (units m).*1)) as [Hin|Hnin].
  - pose proof Hin as Hin'.
    apply list_elem_of_fmap in Hin as ([j' pc] & -> & Hin).
    apply list_elem_of_lookup in Hin as [k Hk].
    destruct (Hunit _ _ _ Hk) as (item' & Ho & Hs & _). simpl in *.
    assert (item' = item) as -> by congruence.
    destruct (settled pc); [right|left]; done.
  - left. by rewrite Hrest.
Qed.

(** The end of the run of the short feed. *)
Lemma items_during_run_witness : length (store Run.final) = 2%nat.
Proof.
  exact (proj1 (items_during_run Example.world Run.feed Example.from 10 Run.final
                  Run_final_reachable)).
Defined.
